(** * MDB: the table engine of [src/db.py]

    A shallow embedding of the classes [Table] and [Database] of
    [src/db.py] and the properties of the engine stated over it.

    Python objects are records, Python dictionaries that are only looked
    up by key ([Table.index], [Database.tables], the [data/] directory)
    are finite maps, dictionaries whose key order is observable (a row,
    a schema) are association lists in insertion order, and a method that
    mutates [self] and the disk is a function from the table and the disk
    to an outcome, the table and the disk. An exception is an outcome of
    its own, returned with the state the method had reached when it was
    raised. Failures of the file system and the text printed to the
    terminal are outside the model. *)

From stdpp Require Import base option list strings gmap fin_maps pretty.

Open Scope string_scope.
Open Scope list_scope.

(** ** Python values *)

(** The cells of a row. The REPL stores strings, the web form stores
    strings or [None], and the JSON file keeps integers and booleans as
    they are; floating-point numbers and nested containers are outside the
    model. *)
Inductive value :=
  | VNone
  | VBool (b : bool)
  | VInt (z : Z)
  | VStr (s : string).

Global Instance value_eq_dec : EqDecision value.
Proof. solve_decision. Defined.

(** Python's [str(v)]. *)
Definition str (v : value) : string :=
  match v with
  | VNone => "None"
  | VBool true => "True"
  | VBool false => "False"
  | VInt z => pretty z
  | VStr s => s
  end.

(** ** Python dictionaries with observable key order *)

Abbreviation dict V := (list (string * V)).

(** [d.get(k)] without the default: the value bound to [k], if any. *)
Fixpoint dict_get {V} (d : dict V) (k : string) : option V :=
  match d with
  | [] => None
  | (k', v) :: d' => if decide (k' = k) then Some v else dict_get d' k
  end.

(** [k in d]. *)
Definition dict_in {V} (k : string) (d : dict V) : bool :=
  bool_decide (is_Some (dict_get d k)).

(** [list(d)], the keys in iteration order. *)
Definition dict_keys {V} (d : dict V) : list string := d.*1.

Abbreviation row := (dict value).

(** [row.get(col)]: the default of [dict.get] is [None]. *)
Definition row_get (r : row) (col : string) : value :=
  default VNone (dict_get r col).

(** ** Exceptions and outcomes *)

(** Every failure of the engine is a Python [ValueError]; the constructor
    records the raise site, under the name the specification gives it,
    with the data its message is built from. [KeyError], [IndexError] and
    [JSONDecodeError] are the built-in exceptions that the engine lets
    escape. *)
Inductive schema_fault :=
  | ExtraColumn (col : string)     (* "Column '{col}' not in schema [...]" *)
  | MissingColumn (col : string).  (* "Missing column '{col}'" *)

Inductive exn :=
  | SchemaError (f : schema_fault)
  | DuplicateKeyError (pk_val : string)  (* "Duplicate entry for Primary Key '{pk_val}'" *)
  | KeyNotFoundError (pk_str : string)   (* "Key {pk_str} not found." *)
  | TableExistsError (name : string)     (* "Table {name} already loaded." *)
  | TableNotFoundError (name : string)   (* "Table '{name}' does not exist." *)
  | KeyError (key : string)
  | IndexError
  | JSONDecodeError.

Inductive outcome (A : Type) :=
  | Returns (a : A)
  | Raises (e : exn).
Arguments Returns {A} a.
Arguments Raises {A} e.

Definition is_SchemaError (e : exn) : bool :=
  match e with SchemaError _ => true | _ => false end.

(** ** The disk *)

(** What [json.load] makes of a file of [data/]: either it raises
    [JSONDecodeError], or it yields an object whose fields ["schema"],
    ["pk_col"] and ["rows"], when present, have the shape [Table.save]
    writes. [json.dump] followed by [json.load] is the identity on such
    objects. These are the files the engine writes and the one kind of
    damage [load] handles. A file that is not text ([UnicodeDecodeError])
    or that decodes to a value of another shape (a list, ["rows"] that is
    no list of objects) is not a [file]: on those [load] lets
    [UnicodeDecodeError], [AttributeError] or [TypeError] out of the
    constructor and no table is built. What is stated below about a
    constructor or a [create_table] that returns is stated for disks whose
    file under the name is one of the two kinds here, or absent. *)
Record document := Document {
  doc_schema : option (dict string);
  doc_pk_col : option string;
  doc_rows : option (list row)
}.

Inductive file :=
  | Undecodable
  | Json (d : document).

(** The files of the working directory, by path. *)
Abbreviation disk := (gmap string file).

(** [f"data/{name}.json"] *)
Definition data_path (name : string) : string := "data/" +:+ name +:+ ".json".

(** ** class Table *)
Module Table.

Record t := Make {
  name : string;
  schema : dict string;         (* column name -> type tag *)
  pk_col : string;
  rows : list row;
  index : gmap string nat       (* str(primary key) -> position in [rows] *)
}.

(** [self.filepath], assigned once by [__init__]. *)
Definition filepath (self : t) : string := data_path (name self).

Definition with_rows (self : t) (rs : list row) : t :=
  Make (name self) (schema self) (pk_col self) rs (index self).

Definition with_index (self : t) (ix : gmap string nat) : t :=
  Make (name self) (schema self) (pk_col self) (rows self) ix.

(** The loop of [rebuild_index]: [idx] is the position of the head of
    [rs] in [self.rows]. *)
Fixpoint index_rows (pk : string) (idx : nat) (rs : list row)
    (ix : gmap string nat) : gmap string nat :=
  match rs with
  | [] => ix
  | r :: rs' => index_rows pk (S idx) rs' (<[str (row_get r pk) := idx]> ix)
  end.

Definition rebuild_index (self : t) : t :=
  with_index self (index_rows (pk_col self) 0 (rows self) ∅).

(** [load]: an absent file and an undecodable one (for which a message is
    printed) both leave the table as it is. [json.JSONDecodeError] is the
    one exception it catches; on the files of this model nothing else is
    raised. *)
Definition load (self : t) (fs : disk) : t :=
  match fs !! filepath self with
  | None => self
  | Some Undecodable => self
  | Some (Json data) => rebuild_index (with_rows self (default [] (doc_rows data)))
  end.

Definition init (name : string) (schema : dict string) (pk_col : string)
    (fs : disk) : t :=
  load (Make name schema pk_col [] ∅) fs.

Definition save (self : t) (fs : disk) : disk :=
  <[filepath self :=
      Json (Document (Some (schema self)) (Some (pk_col self)) (Some (rows self)))]> fs.

Definition validate_schema (self : t) (row_dict : row) : outcome unit :=
  match List.find (λ col, negb (dict_in col (schema self))) (dict_keys row_dict) with
  | Some col => Raises (SchemaError (ExtraColumn col))
  | None =>
      match List.find (λ col, negb (dict_in col row_dict)) (dict_keys (schema self)) with
      | Some col => Raises (SchemaError (MissingColumn col))
      | None => Returns ()
      end
  end.

Definition insert (self : t) (row_dict : row) (fs : disk)
    : outcome string * t * disk :=
  match validate_schema self row_dict with
  | Raises e => (Raises e, self, fs)
  | Returns _ =>
      match dict_get row_dict (pk_col self) with
      | None => (Raises (KeyError (pk_col self)), self, fs)
      | Some v =>
          let pk_val := str v in
          if decide (is_Some (index self !! pk_val)) then
            (Raises (DuplicateKeyError pk_val), self, fs)
          else
            let rows' := rows self ++ [row_dict] in
            let self' :=
              Make (name self) (schema self) (pk_col self) rows'
                   (<[pk_val := length rows' - 1]> (index self)) in
            (Returns ("Inserted 1 row into " +:+ name self +:+ "."),
             self', save self' fs)
      end
  end.

Definition select (self : t) (where_col : option string) (where_val : value)
    : outcome (list row) :=
  match where_col with
  | None => Returns (rows self)
  | Some col =>
      if decide (col = "") then Returns (rows self)
      else if decide (col = pk_col self) then
        match index self !! str where_val with
        | Some idx =>
            match rows self !! idx with
            | Some r => Returns [r]
            | None => Raises IndexError
            end
        | None => Returns []
        end
      else
        Returns (filter (λ r, str (row_get r col) = str where_val) (rows self))
  end.

(** The list comprehension of [delete]: [row[self.pk_col]] raises
    [KeyError] at the first row without the column, before [self.rows] is
    assigned. *)
Fixpoint rows_without (pk pk_str : string) (rs : list row) : outcome (list row) :=
  match rs with
  | [] => Returns []
  | r :: rs' =>
      match dict_get r pk with
      | None => Raises (KeyError pk)
      | Some v =>
          match rows_without pk pk_str rs' with
          | Raises e => Raises e
          | Returns kept =>
              Returns (if decide (str v ≠ pk_str) then r :: kept else kept)
          end
      end
  end.

Definition delete (self : t) (pk_val : value) (fs : disk)
    : outcome string * t * disk :=
  let pk_str := str pk_val in
  if decide (is_Some (index self !! pk_str)) then
    match rows_without (pk_col self) pk_str (rows self) with
    | Raises e => (Raises e, self, fs)
    | Returns kept =>
        let self' := rebuild_index (with_rows self kept) in
        (Returns "Row deleted.", self', save self' fs)
    end
  else (Raises (KeyNotFoundError pk_str), self, fs).

End Table.

(** ** class Database *)
Module Database.

Record t := Make {
  tables : gmap string Table.t
}.

Definition init : t := Make ∅.

Definition create_table (self : t) (name : string) (schema : dict string)
    (pk_col : string) (fs : disk) : outcome string * t :=
  if decide (is_Some (tables self !! name)) then
    (Raises (TableExistsError name), self)
  else
    (Returns ("Table '" +:+ name +:+ "' created/loaded."),
     Make (<[name := Table.init name schema pk_col fs]> (tables self))).

(** What [get_table] hands back: the registered [Table] object on one
    path, the value of [create_table] on the other. *)
Inductive handle :=
  | TableObject (tbl : Table.t)
  | Message (s : string).

Definition get_table (self : t) (name : string) (fs : disk) : outcome handle * t :=
  match tables self !! name with
  | Some tbl => (Returns (TableObject tbl), self)
  | None =>
      match fs !! data_path name with
      | Some Undecodable => (Raises JSONDecodeError, self)
      | Some (Json meta) =>
          match doc_schema meta with
          | None => (Raises (KeyError "schema"), self)
          | Some meta_schema =>
              match doc_pk_col meta with
              | None => (Raises (KeyError "pk_col"), self)
              | Some meta_pk_col =>
                  match create_table self name meta_schema meta_pk_col fs with
                  | (Returns s, self') => (Returns (Message s), self')
                  | (Raises e, self') => (Raises e, self')
                  end
              end
          end
      | None => (Raises (TableNotFoundError name), self)
      end
  end.

End Database.

(** ** Sessions: a sequence of mutating commands on one table *)

Inductive command :=
  | Insert (row_dict : row)
  | Delete (pk_val : value).

Definition execute (c : command) (tbl : Table.t) (fs : disk)
    : outcome string * Table.t * disk :=
  match c with
  | Insert row_dict => Table.insert tbl row_dict fs
  | Delete pk_val => Table.delete tbl pk_val fs
  end.

(** The commands are run in order; as in the REPL and the web handlers, a
    command that raises is reported and the session goes on. The result
    lists the outcomes. *)
Fixpoint session (cs : list command) (tbl : Table.t) (fs : disk)
    : list (outcome string) * Table.t * disk :=
  match cs with
  | [] => ([], tbl, fs)
  | c :: cs' =>
      let '(o, tbl', fs') := execute c tbl fs in
      let '(os, tbl'', fs'') := session cs' tbl' fs' in
      (o :: os, tbl'', fs'')
  end.

Definition succeeded {A} (o : outcome A) : bool :=
  match o with Returns _ => true | Raises _ => false end.

(** ** The consistency invariant of a table *)

(** [index] is exactly consistent with [rows]: the row at position [i]
    carries the primary-key column and the index maps its stringified key
    to [i]; the index has one entry per row; stringified keys are unique
    across rows. *)
Definition index_covers_rows (tbl : Table.t) : Prop :=
  ∀ i r, Table.rows tbl !! i = Some r →
    ∃ v, dict_get r (Table.pk_col tbl) = Some v ∧
         Table.index tbl !! str v = Some i.

Definition one_entry_per_row (tbl : Table.t) : Prop :=
  size (Table.index tbl) = length (Table.rows tbl).

Definition unique_keys (tbl : Table.t) : Prop :=
  ∀ i j ri rj vi vj,
    Table.rows tbl !! i = Some ri → Table.rows tbl !! j = Some rj →
    dict_get ri (Table.pk_col tbl) = Some vi →
    dict_get rj (Table.pk_col tbl) = Some vj →
    str vi = str vj → i = j.

Definition consistent (tbl : Table.t) : Prop :=
  index_covers_rows tbl ∧ one_entry_per_row tbl ∧ unique_keys tbl.

(** The rows of a file that [load] can trust under the primary-key column
    [pk]: each carries the column, and no two stringify to the same key. *)
Definition keyed_apart (pk : string) (rs : list row) : Prop :=
  Forall (λ r, is_Some (dict_get r pk)) rs ∧
  NoDup ((λ r, str (row_get r pk)) <$> rs).

(** The two ways a row can disagree with the schema. *)
Definition extra_column (tbl : Table.t) (row_dict : row) : Prop :=
  ∃ col, col ∈ dict_keys row_dict ∧ col ∉ dict_keys (Table.schema tbl).

Definition missing_column (tbl : Table.t) (row_dict : row) : Prop :=
  ∃ col, col ∈ dict_keys (Table.schema tbl) ∧ col ∉ dict_keys row_dict.

(** The stringified primary keys of the rows, as [rebuild_index] reads
    them, in row order. *)
Definition keys_of (tbl : Table.t) : list string :=
  (λ r, str (row_get r (Table.pk_col tbl))) <$> Table.rows tbl.

(** Two tables with the same persisted content: name, schema, primary-key
    column and rows in order (the index is derived from these). *)
Definition same_content (t1 t2 : Table.t) : Prop :=
  Table.name t1 = Table.name t2 ∧ Table.schema t1 = Table.schema t2 ∧
  Table.pk_col t1 = Table.pk_col t2 ∧ Table.rows t1 = Table.rows t2.

(** ** Tables loaded from files that cannot be trusted *)

(** What every table built by the constructor and changed by [insert] and
    [delete] satisfies, whatever its file held: an index entry points at
    a row with that key, and the key of every row has an entry. Several
    rows may share a key. *)
Definition index_sound (tbl : Table.t) : Prop :=
  (∀ k i, Table.index tbl !! k = Some i →
     ∃ r, Table.rows tbl !! i = Some r ∧ str (row_get r (Table.pk_col tbl)) = k)
  ∧ (∀ r, r ∈ Table.rows tbl →
     is_Some (Table.index tbl !! str (row_get r (Table.pk_col tbl)))).

(** The file of the table holds the table as [save] writes it. *)
Definition persisted (tbl : Table.t) (fs : disk) : Prop :=
  fs !! Table.filepath tbl =
    Some (Json (Document (Some (Table.schema tbl)) (Some (Table.pk_col tbl))
                         (Some (Table.rows tbl)))).

(** The index is the one [rebuild_index] computes from the rows. *)
Definition index_rebuilt (tbl : Table.t) : Prop :=
  Table.index tbl = Table.index_rows (Table.pk_col tbl) 0 (Table.rows tbl) ∅.

(** ** The callers of the engine *)

(** What the callers can see raised: the exceptions of the engine, the
    [AttributeError] of a method or attribute looked up on the string
    that [get_table] returns after a lazy load, and the [IndexError] of a
    token list indexed past its end. *)
Inductive failure :=
  | Engine (e : exn)
  | AttributeError (attr : string)  (* 'str' object has no attribute '{attr}' *)
  | TokenIndexError.                (* list index out of range *)

(** The catalogue once a method has mutated, in place, the table object
    it holds under [name]. *)
Definition mutated (db : Database.t) (name : string) (tbl : Table.t) : Database.t :=
  Database.Make (<[name := tbl]> (Database.tables db)).

(** ** The web front end, [app.py] *)
Module App.

Definition employees_schema : dict string :=
  [("id", "str"); ("name", "str"); ("role", "str")].

(** Module initialisation: [db = Database()], then [create_table] inside
    [try ... except ValueError: pass]. On the files of this model the one
    exception [create_table] raises is [TableExistsError], a [ValueError],
    and on a new catalogue it does not raise it; over a file that is not
    text the constructor's [UnicodeDecodeError], a [ValueError] too, is
    swallowed here and [employees] stays unregistered. *)
Definition startup (fs : disk) : Database.t :=
  match Database.create_table Database.init "employees" employees_schema "id" fs with
  | (Returns _, db) => db
  | (Raises _, db) => db
  end.

(** [request.form.get(field)]: the field, or [None] when the form lacks
    it. *)
Definition form_value (field : option string) : value :=
  match field with
  | Some s => VStr s
  | None => VNone
  end.

Inductive request :=
  | GetIndex                                            (* GET / *)
  | PostAdd (id_val name_val role_val : option string)  (* POST /add *)
  | PostDelete (id_val : string).                       (* POST /delete/<id_val> *)

Inductive response :=
  | Rendered (rows : list row)  (* render_template('index.html', rows=rows) *)
  | Redirect                    (* redirect(url_for('index')) *)
  | ErrorPage (e : failure)     (* "Error: {e} <a href='/'>Go Back</a>" *)
  | Unhandled (e : failure).    (* the exception leaves the handler *)

Definition index (db : Database.t) (fs : disk) : response * Database.t * disk :=
  match Database.get_table db "employees" fs with
  | (Raises e, db') => (Unhandled (Engine e), db', fs)
  | (Returns (Database.Message _), db') => (Unhandled (AttributeError "select"), db', fs)
  | (Returns (Database.TableObject table), db') =>
      match Table.select table None VNone with
      | Returns rows => (Rendered rows, db', fs)
      | Raises e => (Unhandled (Engine e), db', fs)
      end
  end.

Definition add_entry (id_val name_val role_val : option string)
    (db : Database.t) (fs : disk) : response * Database.t * disk :=
  match Database.get_table db "employees" fs with
  | (Raises e, db') => (Unhandled (Engine e), db', fs)
  | (Returns (Database.Message _), db') => (ErrorPage (AttributeError "insert"), db', fs)
  | (Returns (Database.TableObject table), db') =>
      match Table.insert table
              [("id", form_value id_val); ("name", form_value name_val);
               ("role", form_value role_val)] fs with
      | (Returns _, table', fs') => (Redirect, mutated db' "employees" table', fs')
      | (Raises e, table', fs') => (ErrorPage (Engine e), mutated db' "employees" table', fs')
      end
  end.

Definition delete_entry (id_val : string) (db : Database.t) (fs : disk)
    : response * Database.t * disk :=
  match Database.get_table db "employees" fs with
  | (Raises e, db') => (Unhandled (Engine e), db', fs)
  | (Returns (Database.Message _), db') => (ErrorPage (AttributeError "delete"), db', fs)
  | (Returns (Database.TableObject table), db') =>
      match Table.delete table (VStr id_val) fs with
      | (Returns _, table', fs') => (Redirect, mutated db' "employees" table', fs')
      | (Raises e, table', fs') => (ErrorPage (Engine e), mutated db' "employees" table', fs')
      end
  end.

Definition handle (rq : request) (db : Database.t) (fs : disk)
    : response * Database.t * disk :=
  match rq with
  | GetIndex => index db fs
  | PostAdd id_val name_val role_val => add_entry id_val name_val role_val db fs
  | PostDelete id_val => delete_entry id_val db fs
  end.

(** The requests of one process, served one after the other. *)
Fixpoint serve (rqs : list request) (db : Database.t) (fs : disk)
    : list response * Database.t * disk :=
  match rqs with
  | [] => ([], db, fs)
  | rq :: rqs' =>
      let '(rs, db', fs') := handle rq db fs in
      let '(rss, db'', fs'') := serve rqs' db' fs' in
      (rs :: rss, db'', fs'')
  end.

Definition is_Unhandled (rs : response) : bool :=
  match rs with Unhandled _ => true | _ => false end.

(** The mutating command a request amounts to, if any. *)
Definition command_of (rq : request) : list command :=
  match rq with
  | GetIndex => []
  | PostAdd id_val name_val role_val =>
      [Insert [("id", form_value id_val); ("name", form_value name_val);
               ("role", form_value role_val)]]
  | PostDelete id_val => [Delete (VStr id_val)]
  end.

End App.

(** ** More of Python's dictionaries *)

(** [d[k] = v]: a key that is present keeps its place. *)
Fixpoint dict_set {V} (d : dict V) (k : string) (v : V) : dict V :=
  match d with
  | [] => [(k, v)]
  | (k', v') :: d' =>
      if decide (k' = k) then (k', v) :: d' else (k', v') :: dict_set d' k v
  end.

(** [dict(pairs)] *)
Definition dict_of_pairs {V} (pairs : list (string * V)) : dict V :=
  foldl (λ d kv, dict_set d kv.1 kv.2) [] pairs.

(** ** The command interpreter, [repl.py] *)
Module Repl.

(** What a command prints: a line of text, a row ([print(row)]), or
    ["System Error: {e}"]. *)
Inductive printed :=
  | Line (s : string)
  | RowLine (r : row)
  | SystemError (e : failure).

Definition usage_create : string :=
  "Error: Usage -> CREATE TABLE <name> <pk_col> <col1> <col2>...".
Definition usage_insert : string :=
  "Error: Usage -> INSERT INTO <name> <val1> <val2>...".
Definition usage_select : string :=
  "Error: Syntax -> SELECT * FROM <name> [WHERE <col> = <val>]".
Definition usage_delete : string :=
  "Error: Usage -> DELETE FROM <table> <pk_value>".

(** The schema [CREATE] builds: [{pk_col: "str"}], then
    [schema[col] = "str"] for each further column. *)
Definition create_schema (pk_col : string) (columns : list string) : dict string :=
  foldl (λ schema col, dict_set schema col "str") [(pk_col, "str")] columns.

(** [dict(zip(table.schema.keys(), values))] *)
Definition row_data (schema : dict string) (values : list string) : row :=
  dict_of_pairs (zip (dict_keys schema) (VStr <$> values)).

(** The end of the [SELECT] branch: the call of [select] and the lines
    printed for its result. *)
Definition print_select (table : Database.handle) (where_col : option string)
    (where_val : value) : list printed :=
  match table with
  | Database.Message _ => [SystemError (AttributeError "select")]
  | Database.TableObject tbl =>
      match Table.select tbl where_col where_val with
      | Returns results =>
          Line ("Found " +:+ pretty (length results) +:+ " rows:")
            :: (RowLine <$> results)
      | Raises e => [SystemError (Engine e)]
      end
  end.

Section interpreter.

(** Python's [str.upper]. *)
Variable upper : string → string.

(** Steps 2 and 3 of the loop of [main], with the handler of
    [except Exception], on the tokens [shlex.split] made of a line: the
    lines printed, the catalogue and the disk afterwards. *)
Definition run_command (tokens : list string) (db : Database.t) (fs : disk)
    : list printed * Database.t * disk :=
  match tokens with
  | [] => ([SystemError TokenIndexError], db, fs)
  | token0 :: _ =>
    let command := upper token0 in
    if decide (command = "CREATE") then
      if decide (length tokens < 4) then ([Line usage_create], db, fs)
      else
        match tokens !! 2, tokens !! 3 with
        | Some table_name, Some pk_col =>
            let columns := drop 4 tokens in
            let schema := create_schema pk_col columns in
            match Database.create_table db table_name schema pk_col fs with
            | (Returns s, db') => ([Line s], db', fs)
            | (Raises e, db') => ([SystemError (Engine e)], db', fs)
            end
        | _, _ => ([SystemError TokenIndexError], db, fs)
        end
    else if decide (command = "INSERT") then
      if decide (length tokens < 4) then ([Line usage_insert], db, fs)
      else
        match tokens !! 2 with
        | Some table_name =>
            let values := drop 3 tokens in
            match Database.get_table db table_name fs with
            | (Raises e, db') => ([SystemError (Engine e)], db', fs)
            | (Returns (Database.Message _), db') =>
                ([SystemError (AttributeError "schema")], db', fs)
            | (Returns (Database.TableObject table), db') =>
                if decide (length values ≠ length (Table.schema table)) then
                  ([Line ("Error: Table has " +:+ pretty (length (Table.schema table))
                          +:+ " columns but you provided "
                          +:+ pretty (length values) +:+ " values.")], db', fs)
                else
                  match Table.insert table (row_data (Table.schema table) values) fs with
                  | (Returns s, table', fs') =>
                      ([Line s], mutated db' table_name table', fs')
                  | (Raises e, table', fs') =>
                      ([SystemError (Engine e)], mutated db' table_name table', fs')
                  end
            end
        | None => ([SystemError TokenIndexError], db, fs)
        end
    else if decide (command = "SELECT") then
      match list_find (λ t, upper t = "FROM") tokens with
      | None => ([Line usage_select], db, fs)
      | Some (from_index, _) =>
          match tokens !! (from_index + 1) with
          | None => ([SystemError TokenIndexError], db, fs)
          | Some table_name =>
              match Database.get_table db table_name fs with
              | (Raises e, db') => ([SystemError (Engine e)], db', fs)
              | (Returns table, db') =>
                  match list_find (λ t, upper t = "WHERE") tokens with
                  | None => (print_select table None VNone, db', fs)
                  | Some (where_index, _) =>
                      match tokens !! (where_index + 1), tokens !! (where_index + 2) with
                      | Some col, Some token =>
                          let val_index :=
                            if decide (token = "=") then where_index + 3
                            else where_index + 2 in
                          match tokens !! val_index with
                          | Some val => (print_select table (Some col) (VStr val), db', fs)
                          | None => ([SystemError TokenIndexError], db', fs)
                          end
                      | _, _ => ([SystemError TokenIndexError], db', fs)
                      end
                  end
              end
          end
      end
    else if decide (command = "DELETE") then
      if decide (length tokens < 4) then ([Line usage_delete], db, fs)
      else
        match tokens !! 2, tokens !! 3 with
        | Some table_name, Some pk_val =>
            match Database.get_table db table_name fs with
            | (Raises e, db') => ([SystemError (Engine e)], db', fs)
            | (Returns (Database.Message _), db') =>
                ([SystemError (AttributeError "delete")], db', fs)
            | (Returns (Database.TableObject table), db') =>
                match Table.delete table (VStr pk_val) fs with
                | (Returns s, table', fs') =>
                    ([Line s], mutated db' table_name table', fs')
                | (Raises e, table', fs') =>
                    ([SystemError (Engine e)], mutated db' table_name table', fs')
                end
            end
        | _, _ => ([SystemError TokenIndexError], db, fs)
        end
    else ([Line ("Unknown command: " +:+ command)], db, fs)
  end.

(** The commands of one process, one after the other. *)
Fixpoint run_commands (lines : list (list string)) (db : Database.t) (fs : disk)
    : list (list printed) * Database.t * disk :=
  match lines with
  | [] => ([], db, fs)
  | tokens :: lines' =>
      let '(out, db', fs') := run_command tokens db fs in
      let '(outs, db'', fs'') := run_commands lines' db' fs' in
      (out :: outs, db'', fs'')
  end.

End interpreter.

(** [str.upper] on ASCII text. *)
Fixpoint ascii_upper (s : string) : string :=
  match s with
  | EmptyString => EmptyString
  | String c s' =>
      let n := Ascii.nat_of_ascii c in
      String (if decide (97 ≤ n ≤ 122)%nat then Ascii.ascii_of_nat (n - 32) else c)
             (ascii_upper s')
  end.

End Repl.

(** ** Concrete tables and sessions *)

(** The scenario of the specification, with a second student:
    [CREATE TABLE students id name course] on an empty [data/] directory,
    then [INSERT INTO students 1 "Ann" "CS"] and
    [INSERT INTO students 2 "Bob" "Law"]. *)
Definition students_schema : dict string :=
  [("id", "str"); ("name", "str"); ("course", "str")].

Definition ann : row :=
  [("id", VStr "1"); ("name", VStr "Ann"); ("course", VStr "CS")].

Definition bob : row :=
  [("id", VStr "2"); ("name", VStr "Bob"); ("course", VStr "Law")].

Definition students_empty : Table.t := Table.init "students" students_schema "id" ∅.

Definition students_session :=
  session [Insert ann; Insert bob] students_empty ∅.

Definition students : Table.t := students_session.1.2.

Definition students_disk : disk := students_session.2.

(** Two processes on one file. The first runs [CREATE TABLE staff id name],
    [INSERT INTO staff 1 Kim] and [INSERT INTO staff 2 Kim]. The second
    finds [data/staff.json] and runs [CREATE TABLE staff name id], which
    makes [name] the primary key of the rows it loads, and then
    [INSERT INTO staff Lee 3]. *)
Definition kim1 : row := [("id", VStr "1"); ("name", VStr "Kim")].
Definition kim2 : row := [("id", VStr "2"); ("name", VStr "Kim")].
Definition lee : row := [("name", VStr "Lee"); ("id", VStr "3")].

Definition staff_first :=
  session [Insert kim1; Insert kim2]
          (Table.init "staff" [("id", "str"); ("name", "str")] "id" ∅) ∅.

Definition staff_disk : disk := staff_first.2.

Definition staff_reloaded : Table.t :=
  Table.init "staff" [("name", "str"); ("id", "str")] "name" staff_disk.

Definition staff_second := session [Insert lee] staff_reloaded staff_disk.

(** [CREATE TABLE blank ""], [INSERT INTO blank 1], [INSERT INTO blank 2]:
    a table whose only column, the primary key, has the empty name. *)
Definition blank_session :=
  session [Insert [("", VStr "1")]; Insert [("", VStr "2")]]
          (Table.init "blank" [("", "str")] "" ∅) ∅.

Definition blank : Table.t := blank_session.1.2.

(** The web table after one [POST /add] whose form has no [id] field,
    over an empty disk. *)
Definition nameless_session :=
  session [Insert [("id", VNone); ("name", VStr "Ann"); ("role", VStr "CEO")]]
          (Table.init "employees" App.employees_schema "id" ∅) ∅.
(** ** Dictionaries *)
Section dictionaries.
Context {V : Type}.
Implicit Types (d : dict V) (k : string).

Lemma dict_get_Some_keys d k v : dict_get d k = Some v → k ∈ dict_keys d.
Proof.
  induction d as [|[k' v'] d IH]; simpl; [done|].
  case_decide; subst.
  - intros _. apply list_elem_of_here.
  - intros Hget. apply list_elem_of_further. by apply IH.
Qed.

Lemma dict_get_None_keys d k : dict_get d k = None ↔ k ∉ dict_keys d.
Proof.
  induction d as [|[k' v'] d IH]; simpl.
  - split; [intros _; apply not_elem_of_nil | done].
  - rewrite not_elem_of_cons. case_decide; subst.
    + split; [done | intros [? _]; done].
    + rewrite IH. split; [intros ?; split; [congruence | done] | by intros [_ ?]].
Qed.

Lemma dict_in_keys k d : dict_in k d = true ↔ k ∈ dict_keys d.
Proof.
  unfold dict_in. rewrite bool_decide_eq_true. split.
  - intros [v Hv]. by eapply dict_get_Some_keys.
  - intros Hk. destruct (dict_get d k) eqn:E; [by eexists|].
    by apply dict_get_None_keys in E.
Qed.

Lemma dict_not_in_keys k d : negb (dict_in k d) = true ↔ k ∉ dict_keys d.
Proof.
  rewrite negb_true_iff, <- not_true_iff_false. by rewrite dict_in_keys.
Qed.
End dictionaries.

Lemma row_get_Some (r : row) col v : dict_get r col = Some v → row_get r col = v.
Proof. unfold row_get. by intros ->. Qed.

(** ** Schema validation *)
Section validation.
Implicit Types (tbl : Table.t) (row_dict : row).

Lemma find_absent_None {U W} (ks : list string) (d : dict U) (d' : dict W) :
  dict_keys d' = ks →
  List.find (λ col, negb (dict_in col d)) ks = None ↔
  ∀ col, col ∈ dict_keys d' → col ∈ dict_keys d.
Proof.
  intros <-. split.
  - intros Hnone col Hcol.
    apply list_elem_of_In in Hcol.
    pose proof (List.find_none _ _ Hnone col Hcol) as Hf.
    apply negb_false_iff in Hf. by apply dict_in_keys.
  - intros Hall.
    destruct (List.find _ _) as [col|] eqn:E; [|done].
    apply List.find_some in E as [Hcol Hf].
    apply dict_not_in_keys in Hf. apply list_elem_of_In in Hcol.
    by apply Hall in Hcol.
Qed.

Lemma find_absent_Some {U} (ks : list string) (d : dict U) col :
  List.find (λ col, negb (dict_in col d)) ks = Some col →
  col ∈ ks ∧ col ∉ dict_keys d.
Proof.
  intros [Hcol Hf]%List.find_some. split.
  - by apply list_elem_of_In.
  - by apply dict_not_in_keys.
Qed.

Lemma validate_schema_Returns tbl row_dict :
  Table.validate_schema tbl row_dict = Returns () ↔
  ∀ col, col ∈ dict_keys row_dict ↔ col ∈ dict_keys (Table.schema tbl).
Proof.
  unfold Table.validate_schema.
  destruct (List.find _ (dict_keys row_dict)) as [c|] eqn:E1.
  { apply find_absent_Some in E1 as [Hin Hout]. split; [done|].
    intros Hall. by apply Hall in Hin. }
  destruct (List.find _ (dict_keys (Table.schema tbl))) as [c|] eqn:E2.
  { apply find_absent_Some in E2 as [Hin Hout]. split; [done|].
    intros Hall. by apply Hall in Hin. }
  rewrite (find_absent_None _ _ row_dict) in E1 by done.
  rewrite (find_absent_None _ _ (Table.schema tbl)) in E2 by done.
  split; [|done]. intros _ col. split; auto.
Qed.

Lemma validate_schema_Raises tbl row_dict e :
  Table.validate_schema tbl row_dict = Raises e →
  is_SchemaError e = true ∧ (extra_column tbl row_dict ∨ missing_column tbl row_dict).
Proof.
  unfold Table.validate_schema.
  destruct (List.find _ (dict_keys row_dict)) as [c|] eqn:E1.
  { intros [= <-]. apply find_absent_Some in E1 as [? ?].
    split; [done|]. left. by exists c. }
  destruct (List.find _ (dict_keys (Table.schema tbl))) as [c|] eqn:E2; [|done].
  intros [= <-]. apply find_absent_Some in E2 as [? ?].
  split; [done|]. right. by exists c.
Qed.

Lemma validate_schema_cases tbl row_dict :
  Table.validate_schema tbl row_dict = Returns () ∨
  ∃ f, Table.validate_schema tbl row_dict = Raises (SchemaError f).
Proof.
  unfold Table.validate_schema.
  repeat (destruct (List.find _ _)); eauto.
Qed.

Lemma mismatch_iff tbl row_dict :
  extra_column tbl row_dict ∨ missing_column tbl row_dict ↔
  Table.validate_schema tbl row_dict ≠ Returns ().
Proof.
  split.
  - intros Hbad Hok. pose proof (proj1 (validate_schema_Returns _ _) Hok) as Hall.
    destruct Hbad as [(c & Hin & Hout)|(c & Hin & Hout)]; by apply Hall in Hin.
  - intros Hne.
    destruct (validate_schema_cases tbl row_dict) as [Hok|[f Hf]]; [done|].
    by apply validate_schema_Raises in Hf as [_ ?].
Qed.
End validation.


(** ** Rebuilding the index *)
Section index_rows.
Variable pk : string.
Implicit Types (rs : list row) (ix : gmap string nat).

Let key (r : row) : string := str (row_get r pk).

Lemma index_rows_absent rs n ix k :
  k ∉ key <$> rs → Table.index_rows pk n rs ix !! k = ix !! k.
Proof.
  revert n ix. induction rs as [|r rs IH]; intros n ix Hk; simpl; [done|].
  rewrite fmap_cons in Hk. apply not_elem_of_cons in Hk as [Hne Hk].
  rewrite IH by done. by rewrite lookup_insert_ne.
Qed.

Lemma index_rows_present rs n ix j k :
  NoDup (key <$> rs) → (key <$> rs) !! j = Some k →
  Table.index_rows pk n rs ix !! k = Some (n + j).
Proof.
  revert n ix j. induction rs as [|r rs IH]; intros n ix j Hnd Hj; simpl; [done|].
  rewrite fmap_cons in Hnd, Hj. apply NoDup_cons in Hnd as [Hfresh Hnd].
  destruct j as [|j]; simpl in Hj.
  - injection Hj as <-. rewrite index_rows_absent by done.
    rewrite lookup_insert_eq. f_equal. lia.
  - rewrite (IH (S n) _ j) by done. f_equal. lia.
Qed.

Lemma index_rows_size rs n ix :
  NoDup (key <$> rs) → (∀ k, k ∈ key <$> rs → ix !! k = None) →
  size (Table.index_rows pk n rs ix) = size ix + length rs.
Proof.
  revert n ix. induction rs as [|r rs IH]; intros n ix Hnd Hfresh; simpl.
  { lia. }
  rewrite fmap_cons in Hnd, Hfresh. apply NoDup_cons in Hnd as [Hr Hnd].
  rewrite IH; [|done|].
  - rewrite map_size_insert_None; [lia|]. apply Hfresh, list_elem_of_here.
  - intros k Hk. rewrite lookup_insert_ne.
    + by apply Hfresh, list_elem_of_further.
    + intros Heq. subst k. by apply Hr.
Qed.
End index_rows.

(** ** Consequences of the invariant *)
Section invariant.
Implicit Types (tbl : Table.t) (r : row).

Lemma keys_of_lookup tbl i k :
  keys_of tbl !! i = Some k ↔
  ∃ r, Table.rows tbl !! i = Some r ∧ str (row_get r (Table.pk_col tbl)) = k.
Proof.
  unfold keys_of. rewrite list_lookup_fmap.
  destruct (Table.rows tbl !! i) as [r|]; simpl.
  - split; [intros [= <-]; eauto | intros (? & [= <-] & <-); done].
  - split; [done | intros (? & ? & _); done].
Qed.

Lemma covers_keys_of tbl i k :
  index_covers_rows tbl → keys_of tbl !! i = Some k →
  Table.index tbl !! k = Some i.
Proof.
  intros Hcov (r & Hr & <-)%keys_of_lookup.
  destruct (Hcov i r Hr) as (v & Hv & Hix). by rewrite (row_get_Some _ _ _ Hv).
Qed.

Lemma covers_NoDup tbl : index_covers_rows tbl → NoDup (keys_of tbl).
Proof.
  intros Hcov. apply NoDup_alt. intros i j k Hi Hj.
  apply (covers_keys_of _ _ _ Hcov) in Hi, Hj. congruence.
Qed.

Lemma covers_unique tbl : index_covers_rows tbl → unique_keys tbl.
Proof.
  intros Hcov i j ri rj vi vj Hi Hj Hvi Hvj Heq.
  destruct (Hcov i ri Hi) as (v & Hv & Hix).
  destruct (Hcov j rj Hj) as (w & Hw & Hjx).
  simplify_eq. rewrite Heq in Hix. congruence.
Qed.

Lemma consistent_keyed_apart tbl :
  index_covers_rows tbl → keyed_apart (Table.pk_col tbl) (Table.rows tbl).
Proof.
  intros Hcov. split.
  - apply Forall_lookup. intros i r Hr.
    destruct (Hcov i r Hr) as (v & -> & _). by eexists.
  - by apply covers_NoDup.
Qed.

(** With one index entry per row, the index holds nothing but the keys
    of the rows. *)
Lemma index_entry_row tbl k i :
  consistent tbl → Table.index tbl !! k = Some i →
  ∃ r v, Table.rows tbl !! i = Some r ∧
         dict_get r (Table.pk_col tbl) = Some v ∧ str v = k.
Proof.
  intros (Hcov & Hsize & _) Hk.
  assert (list_to_set (keys_of tbl) = dom (Table.index tbl)) as Hdom.
  { apply (set_subseteq_size_eq (C:=gset string)).
    - intros k' Hk'. apply elem_of_list_to_set, list_elem_of_lookup in Hk' as [j Hj].
      apply elem_of_dom. exists j. by apply covers_keys_of.
    - rewrite size_dom, size_list_to_set by by apply covers_NoDup.
      unfold keys_of. rewrite length_fmap. unfold one_entry_per_row in Hsize. lia. }
  assert (k ∈ keys_of tbl) as [j Hj]%list_elem_of_lookup.
  { apply (elem_of_list_to_set (C:=gset string)). rewrite Hdom.
    apply elem_of_dom. by eexists. }
  pose proof (covers_keys_of _ _ _ Hcov Hj) as Hkj.
  assert (j = i) as -> by congruence.
  apply keys_of_lookup in Hj as (r & Hr & Hkey).
  destruct (Hcov i r Hr) as (v & Hv & _).
  exists r, v. rewrite (row_get_Some _ _ _ Hv) in Hkey. done.
Qed.

Lemma rebuild_index_consistent tbl :
  keyed_apart (Table.pk_col tbl) (Table.rows tbl) →
  consistent (Table.rebuild_index tbl).
Proof.
  intros [Hpk Hnd].
  assert (index_covers_rows (Table.rebuild_index tbl)) as Hcov.
  { intros i r Hr. simpl in *.
    destruct (proj1 (Forall_lookup _ _) Hpk i r Hr) as [v Hv].
    exists v. split; [done|].
    rewrite (index_rows_present _ _ _ _ i) ; [done|done|].
    rewrite list_lookup_fmap, Hr. simpl. by rewrite (row_get_Some _ _ _ Hv). }
  split; [done|]. split; [|by apply covers_unique].
  unfold one_entry_per_row. simpl.
  rewrite index_rows_size; [by rewrite map_size_empty| done | ].
  intros k _. apply lookup_empty.
Qed.

(** A consistent index is the one [rebuild_index] computes. *)
Lemma consistent_rebuild_index tbl :
  consistent tbl → Table.rebuild_index tbl = tbl.
Proof.
  intros Hc. destruct tbl as [n s pk rs ix].
  unfold Table.rebuild_index, Table.with_index. simpl. f_equal.
  apply map_eq. intros k.
  destruct Hc as (Hcov & Hrest).
  destruct (decide (k ∈ keys_of (Table.Make n s pk rs ix))) as [Hin|Hout].
  - apply list_elem_of_lookup in Hin as [j Hj].
    rewrite (index_rows_present _ _ _ _ j k); [| by apply (covers_NoDup _ Hcov) | done].
    symmetry. apply (covers_keys_of _ _ _ Hcov Hj).
  - rewrite index_rows_absent by done. rewrite lookup_empty.
    destruct (ix !! k) as [i|] eqn:Hk; [|done].
    destruct (index_entry_row (Table.Make n s pk rs ix) k i) as (r & v & Hr & Hv & Hkey);
      [done|done|].
    exfalso. apply Hout. apply list_elem_of_lookup. exists i.
    apply keys_of_lookup. exists r. split; [done|].
    simpl in *. by rewrite (row_get_Some _ _ _ Hv).
Qed.
End invariant.


(** ** insert and delete *)
Section mutations.
Implicit Types (tbl : Table.t) (r row_dict : row) (fs : disk).

Lemma insert_Raises tbl row_dict fs e tbl' fs' :
  Table.insert tbl row_dict fs = (Raises e, tbl', fs') → tbl' = tbl ∧ fs' = fs.
Proof.
  unfold Table.insert.
  destruct (Table.validate_schema tbl row_dict); [|by intros [= _ <- <-]].
  destruct (dict_get row_dict (Table.pk_col tbl)); [|by intros [= _ <- <-]].
  case_decide; [by intros [= _ <- <-] | done].
Qed.

Lemma insert_Returns tbl row_dict fs s tbl' fs' :
  Table.insert tbl row_dict fs = (Returns s, tbl', fs') →
  ∃ v, Table.validate_schema tbl row_dict = Returns () ∧
       dict_get row_dict (Table.pk_col tbl) = Some v ∧
       Table.index tbl !! str v = None ∧
       tbl' = Table.Make (Table.name tbl) (Table.schema tbl) (Table.pk_col tbl)
                (Table.rows tbl ++ [row_dict])
                (<[str v := length (Table.rows tbl)]> (Table.index tbl)) ∧
       fs' = Table.save tbl' fs.
Proof.
  unfold Table.insert.
  destruct (Table.validate_schema tbl row_dict) as [[]|]; [|done].
  destruct (dict_get row_dict (Table.pk_col tbl)) as [v|]; [|done].
  case_decide as Hdup; [done|]. intros [= _ <- <-].
  exists v. repeat split; try done.
  - by apply eq_None_not_Some.
  - rewrite length_app. simpl. do 2 f_equal. lia.
Qed.

Lemma insert_consistent tbl row_dict fs s tbl' fs' :
  consistent tbl →
  Table.insert tbl row_dict fs = (Returns s, tbl', fs') → consistent tbl'.
Proof.
  intros (Hcov & Hsize & _) (v & _ & Hv & Hfresh & -> & _)%insert_Returns.
  assert (index_covers_rows
            (Table.Make (Table.name tbl) (Table.schema tbl) (Table.pk_col tbl)
               (Table.rows tbl ++ [row_dict])
               (<[str v := length (Table.rows tbl)]> (Table.index tbl)))) as Hcov'.
  { intros i r. simpl. intros Hr.
    apply lookup_app_Some in Hr as [Hr|[Hlen Hr]].
    - destruct (Hcov i r Hr) as (w & Hw & Hix). exists w. split; [done|].
      rewrite lookup_insert_ne; [done|]. intros Heq. congruence.
    - apply list_lookup_singleton_Some in Hr as [Hi <-].
      exists v. split; [done|].
      assert (i = length (Table.rows tbl)) as -> by lia.
      apply lookup_insert_eq. }
  split; [done|]. split; [|by apply covers_unique].
  unfold one_entry_per_row in *. simpl.
  rewrite map_size_insert_None by done. rewrite length_app. simpl. lia.
Qed.

Lemma rows_without_filter pk pk_str (rs : list row) :
  Forall (λ r, is_Some (dict_get r pk)) rs →
  Table.rows_without pk pk_str rs =
    Returns (filter (λ r, str (row_get r pk) ≠ pk_str) rs).
Proof.
  induction 1 as [|r rs [v Hv] _ IH]; simpl; [done|].
  rewrite Hv, IH, filter_cons, (row_get_Some _ _ _ Hv).
  by case_decide.
Qed.

Lemma rows_without_Raises pk pk_str (rs : list row) e :
  Table.rows_without pk pk_str rs = Raises e →
  e = KeyError pk ∧ ¬ Forall (λ r, is_Some (dict_get r pk)) rs.
Proof.
  revert e. induction rs as [|r rs IH]; intros e; simpl; [done|].
  destruct (dict_get r pk) as [v|] eqn:Hv.
  - destruct (Table.rows_without pk pk_str rs) as [kept|e']; [done|].
    intros [= ->]. destruct (IH e eq_refl) as [-> Hn].
    split; [done|]. intros [_ ?]%Forall_cons. done.
  - intros [= <-]. split; [done|]. intros [[? ?] _]%Forall_cons. congruence.
Qed.

Lemma delete_Raises tbl pk_val fs e tbl' fs' :
  Table.delete tbl pk_val fs = (Raises e, tbl', fs') → tbl' = tbl ∧ fs' = fs.
Proof.
  unfold Table.delete. case_decide; [|by intros [= _ <- <-]].
  destruct (Table.rows_without _ _ _); [done | by intros [= _ <- <-]].
Qed.

Lemma filter_keeps_all {A} (P : A → Prop) `{!∀ x, Decision (P x)} (l : list A) :
  Forall P l → filter P l = l.
Proof.
  induction 1 as [|x l Hx _ IH]; [done|].
  by rewrite filter_cons_True, IH.
Qed.

Lemma filter_keeps_none {A} (P : A → Prop) `{!∀ x, Decision (P x)} (l : list A) :
  Forall (λ x, ¬ P x) l → filter P l = [].
Proof.
  induction 1 as [|x l Hx _ IH]; [done|].
  by rewrite filter_cons_False, IH.
Qed.

(** In a consistent table the row the index points to is the one row
    with that key. *)
Lemma consistent_split tbl k i :
  consistent tbl → Table.index tbl !! k = Some i →
  ∃ before r after,
    Table.rows tbl = before ++ r :: after ∧ length before = i ∧
    str (row_get r (Table.pk_col tbl)) = k ∧
    Forall (λ r', str (row_get r' (Table.pk_col tbl)) ≠ k) (before ++ after).
Proof.
  intros Hc Hi.
  destruct (index_entry_row _ _ _ Hc Hi) as (r & v & Hr & Hv & Hkey).
  destruct Hc as (Hcov & _ & Huniq).
  exists (take i (Table.rows tbl)), r, (drop (S i) (Table.rows tbl)).
  split; [by rewrite take_drop_middle|]. split.
  { apply length_take_le. apply lookup_lt_Some in Hr. lia. }
  split; [by rewrite (row_get_Some _ _ _ Hv)|].
  assert (∀ j rj, j ≠ i → Table.rows tbl !! j = Some rj →
            str (row_get rj (Table.pk_col tbl)) ≠ k) as Hother.
  { intros j rj Hji Hrj Heq. destruct (Hcov j rj Hrj) as (w & Hw & _).
    rewrite (row_get_Some _ _ _ Hw) in Heq.
    apply Hji. apply (Huniq j i rj r w v); congruence. }
  apply Forall_app. split; apply Forall_lookup; intros j rj Hj.
  - apply lookup_take_Some in Hj as [Hj Hlt]. apply (Hother j); [lia | done].
  - rewrite lookup_drop in Hj. apply (Hother (S i + j)); [lia | done].
Qed.

Lemma delete_consistent_rows tbl pk_val i :
  consistent tbl → Table.index tbl !! str pk_val = Some i →
  ∃ before r after,
    Table.rows tbl = before ++ r :: after ∧ length before = i ∧
    str (row_get r (Table.pk_col tbl)) = str pk_val ∧
    Table.rows_without (Table.pk_col tbl) (str pk_val) (Table.rows tbl)
      = Returns (before ++ after).
Proof.
  intros Hc Hi.
  destruct (consistent_split _ _ _ Hc Hi) as (before & r & after & Hrows & Hlen & Hkey & Hrest).
  exists before, r, after. repeat split; try done.
  rewrite rows_without_filter
    by (destruct Hc as [Hcov _]; by apply consistent_keyed_apart).
  f_equal. rewrite Hrows at 1. apply Forall_app in Hrest as [Hb Ha].
  rewrite filter_app, filter_cons_False by (intros Hne; by apply Hne).
  by rewrite !filter_keeps_all.
Qed.

Lemma delete_consistent tbl pk_val fs s tbl' fs' :
  consistent tbl →
  Table.delete tbl pk_val fs = (Returns s, tbl', fs') → consistent tbl'.
Proof.
  intros Hc. unfold Table.delete. case_decide as Hin; [|done].
  destruct Hin as [i Hi].
  destruct (delete_consistent_rows _ _ _ Hc Hi) as (b & r & a & Hrows & _ & _ & ->).
  intros [= _ <- _]. apply rebuild_index_consistent. simpl.
  destruct Hc as (Hcov & _). apply consistent_keyed_apart in Hcov as [Hpk Hnd].
  rewrite Hrows in Hpk, Hnd. split.
  - apply Forall_app in Hpk as [? [_ ?]%Forall_cons]. by apply Forall_app.
  - rewrite fmap_app, fmap_cons in Hnd. rewrite fmap_app.
    apply NoDup_app in Hnd as (? & Hdisj & [_ ?]%NoDup_cons).
    apply NoDup_app. repeat split; [done| |done].
    intros k Hk Hk'. apply (Hdisj k Hk). by apply list_elem_of_further.
Qed.

Lemma execute_consistent c tbl fs :
  consistent tbl → consistent (execute c tbl fs).1.2.
Proof.
  intros Hc. destruct (execute c tbl fs) as [[[s|e] tbl'] fs'] eqn:E; simpl.
  - destruct c; simpl in E.
    + by eapply insert_consistent.
    + by eapply delete_consistent.
  - destruct c; simpl in E.
    + by apply insert_Raises in E as [-> _].
    + by apply delete_Raises in E as [-> _].
Qed.

Lemma session_consistent cs tbl fs :
  consistent tbl → consistent (session cs tbl fs).1.2.
Proof.
  revert tbl fs. induction cs as [|c cs IH]; intros tbl fs Hc; simpl; [done|].
  pose proof (execute_consistent c tbl fs Hc) as Hc'.
  destruct (execute c tbl fs) as [[o tbl'] fs']. simpl in Hc'.
  specialize (IH tbl' fs' Hc').
  by destruct (session cs tbl' fs') as [[os tbl''] fs''].
Qed.
End mutations.


(** ** Construction and loading *)
Section construction.
Implicit Types (tbl : Table.t) (fs : disk).

Lemma empty_consistent name schema pk : consistent (Table.Make name schema pk [] ∅).
Proof.
  split; [|split].
  - intros i r. simpl. by rewrite lookup_nil.
  - unfold one_entry_per_row. simpl. by rewrite map_size_empty.
  - intros i j ri rj vi vj. simpl. by rewrite lookup_nil.
Qed.

Lemma load_fields tbl fs :
  Table.name (Table.load tbl fs) = Table.name tbl ∧
  Table.schema (Table.load tbl fs) = Table.schema tbl ∧
  Table.pk_col (Table.load tbl fs) = Table.pk_col tbl.
Proof.
  unfold Table.load. destruct (fs !! Table.filepath tbl) as [[|data]|]; done.
Qed.

Lemma init_fields name schema pk fs :
  Table.name (Table.init name schema pk fs) = name ∧
  Table.schema (Table.init name schema pk fs) = schema ∧
  Table.pk_col (Table.init name schema pk fs) = pk.
Proof. apply (load_fields (Table.Make name schema pk [] ∅)). Qed.

Lemma init_consistent name schema pk fs :
  (∀ data, fs !! data_path name = Some (Json data) →
           keyed_apart pk (default [] (doc_rows data))) →
  consistent (Table.init name schema pk fs).
Proof.
  intros Hfile. unfold Table.init, Table.load, Table.filepath. simpl.
  destruct (fs !! data_path name) as [[|data]|] eqn:E;
    try apply empty_consistent.
  apply rebuild_index_consistent. simpl. by apply Hfile.
Qed.

Lemma rebuild_index_same_content tbl tbl0 :
  Table.name tbl0 = Table.name tbl → Table.schema tbl0 = Table.schema tbl →
  Table.pk_col tbl0 = Table.pk_col tbl →
  same_content (Table.rebuild_index (Table.with_rows tbl0 (Table.rows tbl))) tbl.
Proof. by repeat split. Qed.

(** Reading back what [save] wrote: the rows of the file are the rows of
    the table that was saved. *)
Lemma load_after_save tbl tbl0 fs :
  Table.name tbl0 = Table.name tbl →
  Table.load tbl0 (Table.save tbl fs) =
    Table.rebuild_index (Table.with_rows tbl0 (Table.rows tbl)).
Proof.
  intros Hname. unfold Table.load, Table.save, Table.filepath.
  rewrite Hname, lookup_insert_eq. done.
Qed.

Lemma init_after_save tbl fs :
  consistent tbl →
  Table.init (Table.name tbl) (Table.schema tbl) (Table.pk_col tbl)
             (Table.save tbl fs) = tbl.
Proof.
  intros Hc. unfold Table.init. rewrite load_after_save by done.
  etrans; [|apply (consistent_rebuild_index tbl Hc)].
  by destruct tbl.
Qed.

(** The file a consistent table saves can be trusted under its own
    primary-key column. *)
Lemma saved_file_keyed_apart tbl fs data :
  consistent tbl →
  Table.save tbl fs !! data_path (Table.name tbl) = Some (Json data) →
  keyed_apart (Table.pk_col tbl) (default [] (doc_rows data)).
Proof.
  intros (Hcov & _). unfold Table.save, Table.filepath.
  rewrite lookup_insert_eq. intros [= <-]. simpl.
  by apply consistent_keyed_apart.
Qed.
End construction.

(** ** The catalogue *)
Section catalogue.
Implicit Types (db : Database.t) (fs : disk).

Lemma get_table_live db name fs tbl :
  Database.tables db !! name = Some tbl →
  Database.get_table db name fs = (Returns (Database.TableObject tbl), db).
Proof. unfold Database.get_table. by intros ->. Qed.

Lemma get_table_missing db name fs :
  Database.tables db !! name = None → fs !! data_path name = None →
  Database.get_table db name fs = (Raises (TableNotFoundError name), db).
Proof. unfold Database.get_table. by intros -> ->. Qed.

Lemma get_table_lazy db name fs meta_schema meta_pk_col file_rows :
  Database.tables db !! name = None →
  fs !! data_path name =
    Some (Json (Document (Some meta_schema) (Some meta_pk_col) file_rows)) →
  Database.get_table db name fs =
    (Returns (Database.Message ("Table '" +:+ name +:+ "' created/loaded.")),
     Database.Make (<[name := Table.init name meta_schema meta_pk_col fs]>
                      (Database.tables db))).
Proof.
  unfold Database.get_table, Database.create_table. intros Hdb ->. simpl.
  rewrite Hdb. case_decide as Hin; [by destruct Hin|done].
Qed.
End catalogue.

(** ** select *)
Section selection.
Implicit Types (tbl : Table.t) (r : row).

(** On a consistent table the index lookup finds what the full scan on
    the primary-key column would. *)
Lemma select_pk_scan tbl where_val :
  consistent tbl → Table.pk_col tbl ≠ "" →
  Table.select tbl (Some (Table.pk_col tbl)) where_val =
    Returns (filter (λ r, str (row_get r (Table.pk_col tbl)) = str where_val)
                    (Table.rows tbl)).
Proof.
  intros Hc Hpk. unfold Table.select.
  case_decide; [done|]. case_decide; [|done].
  destruct (Table.index tbl !! str where_val) as [i|] eqn:Hi.
  - destruct (consistent_split _ _ _ Hc Hi)
      as (before & r & after & Hrows & Hlen & Hkey & [Hb Ha]%Forall_app).
    rewrite Hrows, lookup_app_r, Hlen, Nat.sub_diag by lia. simpl.
    rewrite filter_app, filter_cons_True by done.
    by rewrite !filter_keeps_none.
  - symmetry. f_equal. apply filter_keeps_none, Forall_lookup.
    intros j r Hr Hkey.
    destruct Hc as (Hcov & _). destruct (Hcov j r Hr) as (v & Hv & Hix).
    rewrite (row_get_Some _ _ _ Hv) in Hkey. congruence.
Qed.

Lemma filter_unique_key tbl k :
  index_covers_rows tbl →
  (length (filter (λ r, str (row_get r (Table.pk_col tbl)) = k) (Table.rows tbl)) ≤ 1)%nat.
Proof.
  intros Hcov.
  pose proof (covers_NoDup _ Hcov) as Hnd. unfold keys_of in Hnd.
  induction (Table.rows tbl) as [|r rs IH]; simpl; [lia|].
  rewrite fmap_cons in Hnd. apply NoDup_cons in Hnd as [Hr Hnd].
  rewrite filter_cons. case_decide as Hk; simpl; [|by apply IH].
  assert (filter (λ r, str (row_get r (Table.pk_col tbl)) = k) rs = []) as ->; [|simpl; lia].
  apply filter_keeps_none, Forall_forall. intros r' Hr' Hk'. apply Hr.
  apply list_elem_of_fmap. exists r'. split; [congruence|done].
Qed.
End selection.

Lemma filter_only {A} (P : A → Prop) `{!∀ x, Decision (P x)} (l : list A) x :
  x ∈ l → P x → (length (filter P l) ≤ 1)%nat → filter P l = [x].
Proof.
  intros Hx HP Hlen.
  assert (x ∈ filter P l) as Hin by (by apply list_elem_of_filter).
  destruct (filter P l) as [|y [|z l']]; simpl in Hlen.
  - by apply elem_of_nil in Hin.
  - by apply list_elem_of_singleton in Hin as ->.
  - lia.
Qed.

(** The full scan on a column that no row carries compares ["None"],
    the string of the missing cell, with [str where_val]. *)
Lemma select_absent_column (tbl : Table.t) (col : string) (where_val : value) :
  col ≠ "" → col ≠ Table.pk_col tbl →
  Forall (λ r : row, dict_get r col = None) (Table.rows tbl) →
  Table.select tbl (Some col) where_val =
    Returns (if decide (str where_val = "None") then Table.rows tbl else []).
Proof.
  intros Hcol Hpk Habsent. unfold Table.select.
  do 2 (case_decide; [done|]). f_equal.
  case_decide as Hnone.
  - apply filter_keeps_all. eapply Forall_impl; [done|].
    intros r Hr. simpl in Hr. unfold row_get. by rewrite Hr.
  - apply filter_keeps_none. eapply Forall_impl; [done|].
    intros r Hr Heq. simpl in Hr. unfold row_get in Heq. rewrite Hr in Heq.
    by apply Hnone.
Qed.

(** A table whose primary-key column is outside its schema accepts no
    row. *)
Lemma insert_foreign_primary_key (tbl : Table.t) (row_dict : row) (fs : disk) :
  Table.pk_col tbl ∉ dict_keys (Table.schema tbl) →
  ∃ e, Table.insert tbl row_dict fs = (Raises e, tbl, fs)
       ∧ (Table.validate_schema tbl row_dict = Returns () →
          e = KeyError (Table.pk_col tbl)).
Proof.
  intros Hout. unfold Table.insert.
  destruct (validate_schema_cases tbl row_dict) as [Hok|[f Hf]].
  - rewrite Hok.
    assert (dict_get row_dict (Table.pk_col tbl) = None) as ->.
    { apply dict_get_None_keys. intros Hin. apply Hout.
      by apply (proj1 (validate_schema_Returns _ _) Hok). }
    by exists (KeyError (Table.pk_col tbl)).
  - rewrite Hf. by exists (SchemaError f).
Qed.

(** ** The index of an arbitrary list of rows *)
Section index_of_any_rows.
Variable pk : string.
Implicit Types (rs : list row) (ix : gmap string nat).

Let key (r : row) : string := str (row_get r pk).

Lemma last_occurrence (k : string) (l : list string) :
  k ∈ l → ∃ l1 l2, l = l1 ++ k :: l2 ∧ k ∉ l2.
Proof.
  induction l as [|x l IH]; [by intros ?%elem_of_nil|].
  destruct (decide (k ∈ l)) as [Hin|Hout].
  - intros _. destruct (IH Hin) as (l1 & l2 & -> & Hl2).
    by exists (x :: l1), l2.
  - intros [->|?]%elem_of_cons; [|done]. by exists [], l.
Qed.

Lemma index_rows_last rs n ix k l1 l2 :
  key <$> rs = l1 ++ k :: l2 → k ∉ l2 →
  Table.index_rows pk n rs ix !! k = Some (n + length l1).
Proof.
  unfold key. revert n ix l1. induction rs as [|r rs IH]; intros n ix l1 Hkeys Hl2.
  { by destruct l1. }
  rewrite fmap_cons in Hkeys. simpl. destruct l1 as [|k' l1]; simpl in Hkeys.
  - injection Hkeys as Hk Hrest. rewrite index_rows_absent by by rewrite Hrest.
    rewrite Hk, lookup_insert_eq. f_equal. simpl. lia.
  - injection Hkeys as _ Hrest. rewrite (IH (S n) _ l1) by done.
    f_equal. simpl. lia.
Qed.

Lemma index_rows_Some rs n ix k i :
  Table.index_rows pk n rs ix !! k = Some i →
  ((k ∉ key <$> rs) ∧ ix !! k = Some i) ∨
  (∃ l1 l2, key <$> rs = l1 ++ k :: l2 ∧ (k ∉ l2) ∧ i = n + length l1).
Proof.
  unfold key. intros Hi.
  destruct (decide (k ∈ (λ r, str (row_get r pk)) <$> rs)) as [Hin|Hout].
  - right. destruct (last_occurrence _ _ Hin) as (l1 & l2 & Hkeys & Hl2).
    exists l1, l2. rewrite (index_rows_last _ _ _ _ _ _ Hkeys Hl2) in Hi.
    by injection Hi as <-.
  - left. by rewrite index_rows_absent in Hi.
Qed.
End index_of_any_rows.

Section soundness.
Implicit Types (tbl : Table.t) (fs : disk).

Lemma rebuild_index_sound tbl : index_sound (Table.rebuild_index tbl).
Proof.
  split; simpl.
  - intros k i Hi. apply index_rows_Some in Hi as [[_ Hi]|(l1 & l2 & Hkeys & _ & ->)].
    { by rewrite lookup_empty in Hi. }
    assert (((λ r, str (row_get r (Table.pk_col tbl))) <$> Table.rows tbl)
              !! length l1 = Some k) as Hk.
    { rewrite Hkeys. by apply list_lookup_middle. }
    rewrite list_lookup_fmap in Hk.
    destruct (Table.rows tbl !! length l1) as [r|] eqn:Hr; [|done].
    exists r. split; [exact Hr|]. simpl in Hk. by injection Hk.
  - intros r Hr.
    assert (str (row_get r (Table.pk_col tbl))
              ∈ (λ r, str (row_get r (Table.pk_col tbl))) <$> Table.rows tbl) as Hin.
    { apply list_elem_of_fmap. by exists r. }
    destruct (last_occurrence _ _ Hin) as (l1 & l2 & Hkeys & Hl2).
    rewrite (index_rows_last _ _ _ _ _ _ _ Hkeys Hl2). by eexists.
Qed.

Lemma empty_index_sound name schema pk : index_sound (Table.Make name schema pk [] ∅).
Proof.
  split; simpl.
  - intros k i. by rewrite lookup_empty.
  - intros r ?%elem_of_nil. done.
Qed.

Lemma init_index_sound name schema pk fs : index_sound (Table.init name schema pk fs).
Proof.
  unfold Table.init, Table.load.
  destruct (fs !! _) as [[|data]|];
    auto using empty_index_sound, rebuild_index_sound.
Qed.

Lemma consistent_index_sound tbl : consistent tbl → index_sound tbl.
Proof.
  intros Hc. split.
  - intros k i Hi. destruct (index_entry_row _ _ _ Hc Hi) as (r & v & Hr & Hv & Hk).
    exists r. split; [done|]. by rewrite (row_get_Some _ _ _ Hv).
  - intros r [i Hr]%list_elem_of_lookup. destruct Hc as (Hcov & _).
    destruct (Hcov i r Hr) as (v & Hv & Hix).
    rewrite (row_get_Some _ _ _ Hv). by eexists.
Qed.

Lemma insert_index_sound tbl row_dict fs s tbl' fs' :
  index_sound tbl →
  Table.insert tbl row_dict fs = (Returns s, tbl', fs') → index_sound tbl'.
Proof.
  intros [Hpoint Hall] (v & _ & Hv & Hfresh & -> & _)%insert_Returns.
  split; simpl.
  - intros k i Hi. apply lookup_insert_Some in Hi as [[<- <-]|[Hne Hi]].
    + exists row_dict. split.
      * by rewrite lookup_app_r, Nat.sub_diag.
      * by rewrite (row_get_Some _ _ _ Hv).
    + destruct (Hpoint k i Hi) as (r & Hr & Hk). exists r. split; [|done].
      by apply lookup_app_l_Some.
  - intros r [Hr|Hr%list_elem_of_singleton]%elem_of_app.
    + destruct (Hall r Hr) as [i Hi].
      destruct (decide (str v = str (row_get r (Table.pk_col tbl)))) as [Heq|Hne].
      * rewrite <- Heq, lookup_insert_eq. by eexists.
      * rewrite lookup_insert_ne by done. by eexists.
    + subst r. rewrite (row_get_Some _ _ _ Hv), lookup_insert_eq. by eexists.
Qed.

Lemma rows_without_Returns pk pk_str (rs kept : list row) :
  Table.rows_without pk pk_str rs = Returns kept →
  Forall (λ r, is_Some (dict_get r pk)) rs.
Proof.
  revert kept. induction rs as [|r rs IH]; intros kept; simpl; [by constructor|].
  destruct (dict_get r pk) as [v|] eqn:Hv; [|done].
  destruct (Table.rows_without pk pk_str rs) as [kept'|]; [|done].
  intros _. constructor; [by eexists | by eapply IH].
Qed.

Lemma delete_Returns tbl pk_val fs s tbl' fs' :
  Table.delete tbl pk_val fs = (Returns s, tbl', fs') →
  is_Some (Table.index tbl !! str pk_val) ∧
  Forall (λ r, is_Some (dict_get r (Table.pk_col tbl))) (Table.rows tbl) ∧
  s = "Row deleted." ∧
  tbl' = Table.rebuild_index
           (Table.with_rows tbl
              (filter (λ r, str (row_get r (Table.pk_col tbl)) ≠ str pk_val)
                      (Table.rows tbl))) ∧
  fs' = Table.save tbl' fs.
Proof.
  unfold Table.delete. case_decide as Hin; [|done].
  destruct (Table.rows_without _ _ _) as [kept|e] eqn:E; [|done].
  intros [= <- <- <-].
  pose proof (rows_without_Returns _ _ _ _ E) as Hpk.
  rewrite rows_without_filter in E by done. by injection E as <-.
Qed.

Lemma execute_index_sound c tbl fs :
  index_sound tbl → index_sound (execute c tbl fs).1.2.
Proof.
  intros Hs. destruct (execute c tbl fs) as [[[s|e] tbl'] fs'] eqn:E; simpl.
  - destruct c; simpl in E.
    + by eapply insert_index_sound.
    + apply delete_Returns in E as (_ & _ & _ & -> & _). apply rebuild_index_sound.
  - destruct c; simpl in E.
    + by apply insert_Raises in E as [-> _].
    + by apply delete_Raises in E as [-> _].
Qed.

Lemma session_index_sound cs tbl fs :
  index_sound tbl → index_sound (session cs tbl fs).1.2.
Proof.
  revert tbl fs. induction cs as [|c cs IH]; intros tbl fs Hs; simpl; [done|].
  pose proof (execute_index_sound c tbl fs Hs) as Hs'.
  destruct (execute c tbl fs) as [[o tbl'] fs']. simpl in Hs'.
  specialize (IH tbl' fs' Hs').
  by destruct (session cs tbl' fs') as [[os tbl''] fs''].
Qed.

Lemma select_index_sound tbl where_col where_val :
  index_sound tbl → ∃ result, Table.select tbl where_col where_val = Returns result.
Proof.
  intros [Hpoint _]. unfold Table.select.
  destruct where_col as [col|]; [|by eexists].
  case_decide; [by eexists|]. case_decide; [|by eexists].
  destruct (Table.index tbl !! str where_val) as [i|] eqn:Hi; [|by eexists].
  destruct (Hpoint _ _ Hi) as (r & -> & _). by eexists.
Qed.
End soundness.

(** ** What a session keeps, whatever the file held *)
Section reachable.
Implicit Types (tbl : Table.t) (fs : disk).

Lemma index_rows_snoc pk n (rs : list row) (r : row) (ix : gmap string nat) :
  Table.index_rows pk n (rs ++ [r]) ix =
    <[str (row_get r pk) := n + length rs]> (Table.index_rows pk n rs ix).
Proof.
  revert n ix. induction rs as [|r' rs IH]; intros n ix; simpl.
  - by rewrite Nat.add_0_r.
  - by rewrite IH, Nat.add_succ_r.
Qed.

Lemma index_rebuilt_sound tbl : index_rebuilt tbl → index_sound tbl.
Proof.
  intros Hix. pose proof (rebuild_index_sound tbl) as Hs.
  unfold Table.rebuild_index in Hs. rewrite <- Hix in Hs. by destruct tbl.
Qed.

Lemma index_rebuilt_fixpoint tbl : index_rebuilt tbl ↔ Table.rebuild_index tbl = tbl.
Proof.
  unfold index_rebuilt, Table.rebuild_index, Table.with_index. destruct tbl; simpl.
  split; [by intros <- | by intros [= ->]].
Qed.

Lemma init_index_rebuilt name schema pk fs : index_rebuilt (Table.init name schema pk fs).
Proof.
  unfold Table.init, Table.load. by destruct (fs !! _) as [[|data]|].
Qed.

Lemma insert_index_rebuilt tbl row_dict fs s tbl' fs' :
  index_rebuilt tbl →
  Table.insert tbl row_dict fs = (Returns s, tbl', fs') → index_rebuilt tbl'.
Proof.
  intros Hix (v & _ & Hv & _ & -> & _)%insert_Returns.
  unfold index_rebuilt in *. simpl.
  by rewrite index_rows_snoc, <- Hix, (row_get_Some _ _ _ Hv).
Qed.

Lemma execute_index_rebuilt c tbl fs :
  index_rebuilt tbl → index_rebuilt (execute c tbl fs).1.2.
Proof.
  intros Hix. destruct (execute c tbl fs) as [[[s|e] tbl'] fs'] eqn:E; simpl.
  - destruct c; simpl in E.
    + by eapply insert_index_rebuilt.
    + by apply delete_Returns in E as (_ & _ & _ & -> & _).
  - destruct c; simpl in E.
    + by apply insert_Raises in E as [-> _].
    + by apply delete_Raises in E as [-> _].
Qed.

Lemma session_index_rebuilt cs tbl fs :
  index_rebuilt tbl → index_rebuilt (session cs tbl fs).1.2.
Proof.
  revert tbl fs. induction cs as [|c cs IH]; intros tbl fs Hix; simpl; [done|].
  pose proof (execute_index_rebuilt c tbl fs Hix) as Hix'.
  destruct (execute c tbl fs) as [[o tbl'] fs']. simpl in Hix'.
  specialize (IH tbl' fs' Hix').
  by destruct (session cs tbl' fs') as [[os tbl''] fs''].
Qed.

(** A command changes neither the name, the schema nor the primary-key
    column, and writes no file but the table's own. *)
Lemma execute_frame c tbl fs :
  Table.name (execute c tbl fs).1.2 = Table.name tbl ∧
  Table.schema (execute c tbl fs).1.2 = Table.schema tbl ∧
  Table.pk_col (execute c tbl fs).1.2 = Table.pk_col tbl ∧
  ∀ path, path ≠ data_path (Table.name tbl) → (execute c tbl fs).2 !! path = fs !! path.
Proof.
  destruct (execute c tbl fs) as [[[s|e] tbl'] fs'] eqn:E; simpl.
  - destruct c; simpl in E.
    + apply insert_Returns in E as (v & _ & _ & _ & -> & ->).
      repeat split; try done. intros path Hpath.
      unfold Table.save, Table.filepath. simpl. by rewrite lookup_insert_ne.
    + apply delete_Returns in E as (_ & _ & _ & -> & ->).
      repeat split; try done. intros path Hpath.
      unfold Table.save, Table.filepath. simpl. by rewrite lookup_insert_ne.
  - assert (tbl' = tbl ∧ fs' = fs) as [-> ->]; [|done].
    destruct c; simpl in E; [by eapply insert_Raises | by eapply delete_Raises].
Qed.

Lemma session_frame cs tbl fs :
  Table.name (session cs tbl fs).1.2 = Table.name tbl ∧
  Table.schema (session cs tbl fs).1.2 = Table.schema tbl ∧
  Table.pk_col (session cs tbl fs).1.2 = Table.pk_col tbl ∧
  ∀ path, path ≠ data_path (Table.name tbl) → (session cs tbl fs).2 !! path = fs !! path.
Proof.
  revert tbl fs. induction cs as [|c cs IH]; intros tbl fs; simpl; [done|].
  pose proof (execute_frame c tbl fs) as (Hn & Hs & Hp & Hf).
  destruct (execute c tbl fs) as [[o tbl'] fs']. simpl in *.
  specialize (IH tbl' fs') as (Hn' & Hs' & Hp' & Hf').
  destruct (session cs tbl' fs') as [[os tbl''] fs'']. simpl in *.
  repeat split; try congruence.
  intros path Hpath. rewrite Hf' by congruence. by apply Hf.
Qed.

Lemma execute_persisted c tbl fs :
  persisted tbl fs ∨ succeeded (execute c tbl fs).1.1 = true →
  persisted (execute c tbl fs).1.2 (execute c tbl fs).2.
Proof.
  destruct (execute c tbl fs) as [[[s|e] tbl'] fs'] eqn:E; simpl.
  - intros _. assert (fs' = Table.save tbl' fs) as ->.
    { destruct c; simpl in E.
      - by apply insert_Returns in E as (v & _ & _ & _ & _ & ->).
      - by apply delete_Returns in E as (_ & _ & _ & _ & ->). }
    unfold persisted, Table.save. apply lookup_insert_eq.
  - assert (tbl' = tbl ∧ fs' = fs) as [-> ->].
    { destruct c; simpl in E; [by eapply insert_Raises | by eapply delete_Raises]. }
    by intros [?|?].
Qed.

Lemma session_persisted cs tbl fs :
  persisted tbl fs ∨ (∃ o, o ∈ (session cs tbl fs).1.1 ∧ succeeded o = true) →
  persisted (session cs tbl fs).1.2 (session cs tbl fs).2.
Proof.
  revert tbl fs. induction cs as [|c cs IH]; intros tbl fs; simpl.
  { intros [?|(o & ?%elem_of_nil & _)]; done. }
  pose proof (execute_persisted c tbl fs) as Hc.
  destruct (execute c tbl fs) as [[o tbl'] fs']. simpl in Hc.
  specialize (IH tbl' fs').
  destruct (session cs tbl' fs') as [[os tbl''] fs'']. simpl in *.
  intros [Hp|(o' & [->|Ho']%elem_of_cons & Hok)]; apply IH.
  - left. apply Hc. by left.
  - left. apply Hc. by right.
  - right. by exists o'.
Qed.

Lemma session_unsuccessful cs tbl fs :
  (∀ o, o ∈ (session cs tbl fs).1.1 → succeeded o = false) →
  (session cs tbl fs).1.2 = tbl ∧ (session cs tbl fs).2 = fs.
Proof.
  revert tbl fs. induction cs as [|c cs IH]; intros tbl fs; simpl; [done|].
  destruct (execute c tbl fs) as [[o tbl'] fs'] eqn:E.
  specialize (IH tbl' fs').
  destruct (session cs tbl' fs') as [[os tbl''] fs'']. simpl in *.
  intros Hall.
  assert (tbl' = tbl ∧ fs' = fs) as [-> ->].
  { specialize (Hall o (list_elem_of_here _ _)). destruct o as [s|e]; [done|].
    destruct c; simpl in E; [by eapply insert_Raises | by eapply delete_Raises]. }
  apply IH. intros o' Ho'. by apply Hall, list_elem_of_further.
Qed.

Lemma init_persisted tbl fs :
  persisted tbl fs → index_rebuilt tbl →
  Table.init (Table.name tbl) (Table.schema tbl) (Table.pk_col tbl) fs = tbl.
Proof.
  intros Hp Hix. unfold Table.init, Table.load. unfold persisted in Hp.
  unfold Table.filepath in *. simpl. rewrite Hp. simpl.
  etrans; [|by apply index_rebuilt_fixpoint]. by destruct tbl.
Qed.
End reachable.

Section more_selection.
Implicit Types (tbl : Table.t) (fs : disk).

Lemma lookup_sublist {A} (l : list A) i x : l !! i = Some x → [x] `sublist_of` l.
Proof.
  intros Hi. rewrite <- (take_drop_middle l i x Hi).
  apply sublist_inserts_l, sublist_skip, sublist_nil_l.
Qed.

Lemma select_sublist tbl where_col where_val result :
  Table.select tbl where_col where_val = Returns result →
  result `sublist_of` Table.rows tbl.
Proof.
  unfold Table.select. destruct where_col as [col|]; [|by intros [= <-]].
  case_decide; [by intros [= <-]|]. case_decide.
  - destruct (Table.index tbl !! str where_val) as [i|].
    + destruct (Table.rows tbl !! i) as [r|] eqn:Hr; [|done].
      intros [= <-]. by eapply lookup_sublist.
    + intros [= <-]. apply sublist_nil_l.
  - intros [= <-]. apply sublist_filter.
Qed.

(** With a rebuilt index the entry of a key is the position of the last
    row with that key. *)
Lemma select_pk_rebuilt tbl where_val :
  index_rebuilt tbl → Table.pk_col tbl ≠ "" →
  ((∀ r, r ∈ Table.rows tbl → str (row_get r (Table.pk_col tbl)) ≠ str where_val) →
     Table.select tbl (Some (Table.pk_col tbl)) where_val = Returns [])
  ∧ (∀ before r after,
       Table.rows tbl = before ++ r :: after →
       str (row_get r (Table.pk_col tbl)) = str where_val →
       Forall (λ r', str (row_get r' (Table.pk_col tbl)) ≠ str where_val) after →
       Table.select tbl (Some (Table.pk_col tbl)) where_val = Returns [r]).
Proof.
  intros Hix Hpk. unfold Table.select.
  destruct (decide (Table.pk_col tbl = "")) as [|_]; [done|].
  destruct (decide (Table.pk_col tbl = Table.pk_col tbl)) as [_|]; [|done].
  rewrite Hix. split.
  - intros Hnone. rewrite index_rows_absent; [by rewrite lookup_empty|].
    intros (r & Hk & Hr)%list_elem_of_fmap. by apply (Hnone r).
  - intros before r after Hrows Hkey Hafter.
    rewrite (index_rows_last _ _ _ _ _
               ((λ r, str (row_get r (Table.pk_col tbl))) <$> before)
               ((λ r, str (row_get r (Table.pk_col tbl))) <$> after)).
    + rewrite length_fmap, Hrows. simpl.
      by rewrite lookup_app_r, Nat.sub_diag.
    + by rewrite Hrows, fmap_app, fmap_cons, Hkey.
    + intros (r' & Hk & Hr')%list_elem_of_fmap.
      by apply (proj1 (Forall_forall _ _) Hafter r' Hr').
Qed.
End more_selection.

(** ** Reopening a table after a session *)
Lemma session_reopen (cs : list command) (tbl : Table.t) (fs : disk) :
  index_rebuilt tbl →
  Table.init (Table.name tbl) (Table.schema tbl) (Table.pk_col tbl) fs = tbl →
  Table.init (Table.name tbl) (Table.schema tbl) (Table.pk_col tbl) (session cs tbl fs).2
  = (session cs tbl fs).1.2.
Proof.
  intros Hix0 Hopen.
  pose proof (session_frame cs tbl fs) as (Hn & Hs & Hp & _).
  pose proof (session_index_rebuilt cs _ fs Hix0) as Hix.
  destruct (decide (Forall (λ o, succeeded o = false) (session cs tbl fs).1.1))
    as [Hall|Hsome].
  - destruct (session_unsuccessful cs tbl fs) as [-> ->]; [|done].
    by apply Forall_forall.
  - apply not_Forall_Exists in Hsome; [|apply _].
    apply Exists_exists in Hsome as (o & Ho & Hok).
    assert (persisted (session cs tbl fs).1.2 (session cs tbl fs).2) as Hfile.
    { apply session_persisted. right. exists o. split; [done|].
      simpl in Hok. by destruct (succeeded o). }
    pose proof (init_persisted _ _ Hfile Hix) as Heq.
    by rewrite Hn, Hs, Hp in Heq.
Qed.

(** ** Sessions in pieces *)
Lemma session_app (cs1 cs2 : list command) (tbl : Table.t) (fs : disk) :
  session (cs1 ++ cs2) tbl fs =
    ((session cs1 tbl fs).1.1
       ++ (session cs2 (session cs1 tbl fs).1.2 (session cs1 tbl fs).2).1.1,
     (session cs2 (session cs1 tbl fs).1.2 (session cs1 tbl fs).2).1.2,
     (session cs2 (session cs1 tbl fs).1.2 (session cs1 tbl fs).2).2).
Proof.
  revert tbl fs. induction cs1 as [|c cs1 IH]; intros tbl fs; simpl.
  { by destruct (session cs2 tbl fs) as [[os t] d]. }
  destruct (execute c tbl fs) as [[o tbl'] fs']. rewrite IH.
  destruct (session cs1 tbl' fs') as [[os1 t1] d1]. simpl.
  by destruct (session cs2 t1 d1) as [[os2 t2] d2].
Qed.

(** ** The web front end *)
Section web.
Implicit Types (tbl : Table.t) (fs : disk) (rq : App.request).

Lemma startup_catalogue fs :
  App.startup fs
  = Database.Make {[ "employees" := Table.init "employees" App.employees_schema "id" fs ]}.
Proof. unfold App.startup, Database.create_table. simpl. by rewrite insert_empty. Qed.

Lemma select_all tbl where_val : Table.select tbl None where_val = Returns (Table.rows tbl).
Proof. done. Qed.

(** With the one table registered, a request is the command it amounts
    to, run on that table. *)
Lemma handle_registered rq tbl fs :
  ∃ rs, App.handle rq (Database.Make {[ "employees" := tbl ]}) fs
        = (rs,
           Database.Make {[ "employees" := (session (App.command_of rq) tbl fs).1.2 ]},
           (session (App.command_of rq) tbl fs).2)
        ∧ App.is_Unhandled rs = false.
Proof.
  destruct rq as [|id_val name_val role_val|id_val]; simpl.
  - unfold App.index, Database.get_table. simpl. rewrite lookup_singleton_eq.
    by eexists.
  - unfold App.add_entry, Database.get_table. simpl. rewrite lookup_singleton_eq.
    destruct (Table.insert tbl _ fs) as [[[s|e] tbl'] fs']; simpl;
      unfold mutated; simpl; rewrite insert_singleton_eq; by eexists.
  - unfold App.delete_entry, Database.get_table. simpl. rewrite lookup_singleton_eq.
    destruct (Table.delete tbl _ fs) as [[[s|e] tbl'] fs']; simpl;
      unfold mutated; simpl; rewrite insert_singleton_eq; by eexists.
Qed.

Lemma serve_registered (rqs : list App.request) tbl fs :
  (App.serve rqs (Database.Make {[ "employees" := tbl ]}) fs).1.2
  = Database.Make {[ "employees" := (session (rqs ≫= App.command_of) tbl fs).1.2 ]}
  ∧ (App.serve rqs (Database.Make {[ "employees" := tbl ]}) fs).2
    = (session (rqs ≫= App.command_of) tbl fs).2
  ∧ Forall (λ rs, App.is_Unhandled rs = false)
           (App.serve rqs (Database.Make {[ "employees" := tbl ]}) fs).1.1.
Proof.
  revert tbl fs. induction rqs as [|rq rqs IH]; intros tbl fs.
  { simpl. by repeat split. }
  rewrite bind_cons, session_app. simpl App.serve.
  destruct (handle_registered rq tbl fs) as (rs & -> & Hrs).
  specialize (IH (session (App.command_of rq) tbl fs).1.2
                 (session (App.command_of rq) tbl fs).2).
  destruct (App.serve rqs _ _) as [[rss db''] fs''] eqn:E. simpl in *.
  destruct IH as (-> & -> & Hall). by repeat split; [..|constructor].
Qed.
End web.

(** ** Dictionaries built by assignment *)
Section dict_assignment.
Context {V : Type}.
Implicit Types (d : dict V) (k : string) (v : V).

Lemma dict_set_keys_present d k v :
  k ∈ dict_keys d → dict_keys (dict_set d k v) = dict_keys d.
Proof.
  induction d as [|[k' v'] d IH]; simpl; [by intros ?%elem_of_nil|].
  case_decide as Hk; [done|]. simpl.
  intros [?|Hin]%elem_of_cons; [congruence|]. f_equal. by apply IH.
Qed.

Lemma dict_set_absent d k v : k ∉ dict_keys d → dict_set d k v = d ++ [(k, v)].
Proof.
  induction d as [|[k' v'] d IH]; simpl; [done|].
  intros [Hne Hout]%not_elem_of_cons. case_decide; [congruence|].
  by rewrite IH.
Qed.

Lemma dict_set_keys d k v :
  dict_keys (dict_set d k v)
  = if decide (k ∈ dict_keys d) then dict_keys d else dict_keys d ++ [k].
Proof.
  case_decide as Hk.
  - by apply dict_set_keys_present.
  - rewrite dict_set_absent by done. unfold dict_keys. by rewrite fmap_app.
Qed.

Lemma dict_set_NoDup d k v : NoDup (dict_keys d) → NoDup (dict_keys (dict_set d k v)).
Proof.
  intros Hnd. rewrite dict_set_keys. case_decide as Hk; [done|].
  apply NoDup_app. repeat split; [done| |apply NoDup_singleton].
  intros x Hx ->%list_elem_of_singleton. done.
Qed.

Lemma dict_set_values (P : V → Prop) d k v :
  P v → Forall (λ kv, P kv.2) d → Forall (λ kv, P kv.2) (dict_set d k v).
Proof.
  intros Hv. induction 1 as [|[k' v'] d Hkv Hd IH]; simpl.
  - by repeat constructor.
  - case_decide; by constructor.
Qed.

Lemma dict_of_pairs_NoDup (pairs : list (string * V)) :
  NoDup pairs.*1 → dict_of_pairs pairs = pairs.
Proof.
  unfold dict_of_pairs.
  assert (∀ acc : dict V, NoDup (acc ++ pairs).*1 →
            foldl (λ d kv, dict_set d kv.1 kv.2) acc pairs = acc ++ pairs) as Hgen.
  { induction pairs as [|[k v] pairs IH]; intros acc Hnd; simpl.
    - by rewrite app_nil_r.
    - rewrite fmap_app, fmap_cons in Hnd. simpl in Hnd.
      apply NoDup_app in Hnd as (Hacc & Hdisj & Hrest).
      rewrite dict_set_absent.
      + rewrite IH; [by rewrite <- app_assoc|].
        rewrite <- app_assoc. simpl. by rewrite fmap_app, fmap_cons; apply NoDup_app.
      + intros Hin. apply (Hdisj k Hin). apply list_elem_of_here. }
  intros Hnd. by apply (Hgen []).
Qed.

Lemma dict_get_zip (ks : list string) (vs : list V) k :
  k ∈ ks → length ks = length vs → is_Some (dict_get (zip ks vs) k).
Proof.
  revert vs. induction ks as [|k' ks IH]; intros vs; [by intros ?%elem_of_nil|].
  destruct vs as [|v vs]; [done|]. simpl.
  intros Hin [= Hlen]. case_decide; [by eexists|].
  apply IH; [|done]. apply elem_of_cons in Hin as [?|?]; [congruence|done].
Qed.
End dict_assignment.

(** ** The command interpreter *)
Section interpreter_lemmas.
Implicit Types (tbl : Table.t) (fs : disk) (db : Database.t).

Lemma create_schema_keys pk_col columns :
  NoDup (dict_keys (Repl.create_schema pk_col columns))
  ∧ (∀ col, col ∈ dict_keys (Repl.create_schema pk_col columns)
            ↔ col = pk_col ∨ col ∈ columns)
  ∧ Forall (λ kv, kv.2 = "str") (Repl.create_schema pk_col columns)
  ∧ head (dict_keys (Repl.create_schema pk_col columns)) = Some pk_col.
Proof.
  unfold Repl.create_schema.
  assert (∀ (acc : dict string),
            NoDup (dict_keys acc) → Forall (λ kv, kv.2 = "str") acc →
            head (dict_keys acc) = Some pk_col →
            let res := foldl (λ schema col, dict_set schema col "str") acc columns in
            NoDup (dict_keys res)
            ∧ (∀ col, col ∈ dict_keys res ↔ col ∈ dict_keys acc ∨ col ∈ columns)
            ∧ Forall (λ kv, kv.2 = "str") res
            ∧ head (dict_keys res) = Some pk_col) as Hgen.
  { induction columns as [|c columns IH]; intros acc Hnd Hstr Hhead; simpl.
    - split; [done|]. split; [|done]. intros col. split; [by left|].
      by intros [?|?%elem_of_nil].
    - destruct (IH (dict_set acc c "str")) as (Hnd' & Hin' & Hstr' & Hhead').
      + by apply dict_set_NoDup.
      + by apply (dict_set_values (λ v, v = "str")).
      + rewrite dict_set_keys. case_decide; [done|].
        by destruct (dict_keys acc).
      + split; [done|]. split; [|done]. intros col. rewrite Hin', dict_set_keys.
        case_decide as Hc.
        * rewrite elem_of_cons. split; [tauto|]. intros [?|[->|?]]; tauto.
        * rewrite elem_of_app, list_elem_of_singleton, elem_of_cons. tauto. }
  destruct (Hgen [(pk_col, "str")]) as (Hnd & Hin & Hstr & Hhead).
  - apply NoDup_singleton.
  - by repeat constructor.
  - done.
  - split; [done|]. split; [|done]. intros col. rewrite Hin. simpl.
    by rewrite list_elem_of_singleton.
Qed.

(** The row [INSERT] builds for a schema without repeated columns and as
    many values as columns: the values under the columns, in order. It
    always passes validation. *)
Lemma row_data_zip (schema : dict string) (values : list string) :
  NoDup (dict_keys schema) → length values = length schema →
  Repl.row_data schema values = zip (dict_keys schema) (VStr <$> values)
  ∧ dict_keys (Repl.row_data schema values) = dict_keys schema.
Proof.
  intros Hnd Hlen. unfold Repl.row_data.
  assert (length (dict_keys schema) = length (VStr <$> values)) as Hlen'.
  { unfold dict_keys. by rewrite !length_fmap. }
  assert ((zip (dict_keys schema) (VStr <$> values)).*1 = dict_keys schema) as Hkeys.
  { apply fst_zip. lia. }
  rewrite dict_of_pairs_NoDup by by rewrite Hkeys. done.
Qed.

Lemma row_data_valid tbl (values : list string) :
  NoDup (dict_keys (Table.schema tbl)) → length values = length (Table.schema tbl) →
  Table.validate_schema tbl (Repl.row_data (Table.schema tbl) values) = Returns ().
Proof.
  intros Hnd Hlen. apply validate_schema_Returns. intros col.
  by rewrite (proj2 (row_data_zip _ _ Hnd Hlen)).
Qed.
End interpreter_lemmas.

(** ** The web front end over any catalogue that holds [employees] *)
Section web_live.
Implicit Types (tbl : Table.t) (fs : disk) (db : Database.t) (rq : App.request).

Lemma mutated_same db name tbl :
  Database.tables db !! name = Some tbl → mutated db name tbl = db.
Proof. intros Hreg. unfold mutated. rewrite insert_id by done. by destruct db. Qed.

Lemma mutated_twice db name tbl tbl' :
  mutated (mutated db name tbl) name tbl' = mutated db name tbl'.
Proof. unfold mutated. simpl. by rewrite insert_insert_eq. Qed.

Lemma mutated_lookup db name tbl :
  Database.tables (mutated db name tbl) !! name = Some tbl.
Proof. apply lookup_insert_eq. Qed.

Lemma handle_live rq db tbl fs :
  Database.tables db !! "employees" = Some tbl →
  ∃ rs, App.handle rq db fs
        = (rs, mutated db "employees" (session (App.command_of rq) tbl fs).1.2,
           (session (App.command_of rq) tbl fs).2)
        ∧ App.is_Unhandled rs = false.
Proof.
  intros Hreg. destruct rq as [|id_val name_val role_val|id_val]; simpl.
  - unfold App.index, Database.get_table. rewrite Hreg. simpl.
    rewrite mutated_same by done. by eexists.
  - unfold App.add_entry, Database.get_table. rewrite Hreg.
    destruct (Table.insert tbl _ fs) as [[[s|e] tbl'] fs']; by eexists.
  - unfold App.delete_entry, Database.get_table. rewrite Hreg.
    destruct (Table.delete tbl _ fs) as [[[s|e] tbl'] fs']; by eexists.
Qed.

Lemma serve_live (rqs : list App.request) db tbl fs :
  Database.tables db !! "employees" = Some tbl →
  (App.serve rqs db fs).1.2
  = mutated db "employees" (session (rqs ≫= App.command_of) tbl fs).1.2
  ∧ (App.serve rqs db fs).2 = (session (rqs ≫= App.command_of) tbl fs).2
  ∧ Forall (λ rs, App.is_Unhandled rs = false) (App.serve rqs db fs).1.1.
Proof.
  revert db tbl fs. induction rqs as [|rq rqs IH]; intros db tbl fs Hreg.
  { simpl. rewrite mutated_same by done. by repeat split. }
  rewrite bind_cons, session_app. simpl App.serve.
  destruct (handle_live rq db tbl fs Hreg) as (rs & -> & Hrs).
  specialize (IH (mutated db "employees" (session (App.command_of rq) tbl fs).1.2)
                 (session (App.command_of rq) tbl fs).1.2
                 (session (App.command_of rq) tbl fs).2
                 (mutated_lookup _ _ _)).
  destruct (App.serve rqs _ _) as [[rss db''] fs''] eqn:E. simpl in *.
  destruct IH as (-> & -> & Hall). rewrite mutated_twice.
  by repeat split; [..|constructor].
Qed.
End web_live.

(** * The claims *)

(** ** The consistency invariant (C1) *)

(** C1, as stated, fails for a loaded table: [load] trusts the file, and
    the rows of [data/staff.json], written under the primary key [id],
    share one [name]. Loaded under the primary key [name] they get a
    single index entry, and the insert that follows succeeds and leaves
    three rows, two index entries and the first row at position 0 indexed
    at position 1. *)
Lemma reload_under_other_key_inconsistent :
  staff_first.1.1 =
    [Returns "Inserted 1 row into staff."; Returns "Inserted 1 row into staff."]
  ∧ staff_second.1.1 = [Returns "Inserted 1 row into staff."]
  ∧ Table.rows staff_second.1.2 = [kim1; kim2; lee]
  ∧ Table.index staff_second.1.2 !! str (row_get kim1 "name") = Some 1
  ∧ size (Table.index staff_second.1.2) = 2
  ∧ ¬ consistent staff_reloaded
  ∧ ¬ consistent staff_second.1.2.
Proof.
  repeat split; try by vm_compute.
  - intros (_ & Hsize & _). by vm_compute in Hsize.
  - intros (_ & Hsize & _). by vm_compute in Hsize.
Qed.

(** C1, amended. A table constructed on a disk where its file is absent,
    undecodable, or holds rows that each carry the primary-key column and
    stringify to pairwise different keys is consistent, and stays
    consistent through every sequence of inserts and deletes (a command
    that raises changes nothing): the row at position [i] is indexed at
    [i], the index has one entry per row, and no two rows share a
    stringified key. *)
Theorem consistent_after_session (name : string) (schema : dict string)
    (pk : string) (fs : disk) (cs : list command) :
  (∀ data, fs !! data_path name = Some (Json data) →
           keyed_apart pk (default [] (doc_rows data))) →
  consistent (Table.init name schema pk fs)
  ∧ consistent (session cs (Table.init name schema pk fs) fs).1.2.
Proof.
  intros Hfile. pose proof (init_consistent name schema pk fs Hfile) as Hinit.
  split; [done|]. by apply session_consistent.
Qed.

(** The table loaded from the file the [students] session wrote, after
    one delete and two inserts of which the second raises. *)
Lemma consistent_after_session_witness :
  consistent (Table.init "students" students_schema "id" students_disk)
  ∧ consistent
      (session [Delete (VInt 1); Insert ann; Insert ann]
         (Table.init "students" students_schema "id" students_disk)
         students_disk).1.2.
Proof.
  apply (consistent_after_session "students" students_schema "id" students_disk).
  intros data Hdata. vm_compute in Hdata. injection Hdata as <-.
  split.
  - repeat constructor; by eexists.
  - simpl. apply NoDup_cons. split; [|apply NoDup_singleton].
    intros Hin%list_elem_of_singleton. discriminate Hin.
Defined.

(** ** Round trip through the file (C2) *)

(** C2. After [save], whatever the number of rows, loading the file
    gives back the name, the schema, the primary-key column and the rows,
    in order, of the table that was saved: in the table a catalogue
    without a live registration opens from the file ([get_table] reads the
    schema and the primary-key column from the file, the constructor
    loads the rows), in the table itself when it calls [load] again, and
    in a table constructed anew with the same arguments. [load] reads the
    rows only, so a table constructed under the same name with another
    schema still gets the saved rows. When the saved table was consistent
    its index comes back too: the loaded table is the saved one. *)
Theorem save_load_round_trip (tbl : Table.t) (fs : disk) (db : Database.t) :
  Database.tables db !! Table.name tbl = None →
  ∃ tbl',
    (Database.get_table db (Table.name tbl) (Table.save tbl fs)).2
      = Database.Make (<[Table.name tbl := tbl']> (Database.tables db))
    ∧ same_content tbl' tbl
    ∧ (consistent tbl → tbl' = tbl)
    ∧ same_content (Table.load tbl (Table.save tbl fs)) tbl
    ∧ tbl' = Table.init (Table.name tbl) (Table.schema tbl) (Table.pk_col tbl)
                        (Table.save tbl fs)
    ∧ (∀ schema0 pk0,
         Table.rows (Table.init (Table.name tbl) schema0 pk0 (Table.save tbl fs))
           = Table.rows tbl).
Proof.
  intros Hfree.
  exists (Table.init (Table.name tbl) (Table.schema tbl) (Table.pk_col tbl)
                     (Table.save tbl fs)).
  split.
  { erewrite get_table_lazy; [done|done|].
    unfold Table.save, Table.filepath. apply lookup_insert_eq. }
  split; [|split; [|split; [|split; [done|]]]].
  - unfold Table.init. rewrite load_after_save by done.
    by apply rebuild_index_same_content.
  - apply init_after_save.
  - rewrite load_after_save by done. by apply rebuild_index_same_content.
  - intros schema0 pk0. unfold Table.init. by rewrite load_after_save.
Qed.

(** The [students] table, two rows, saved over an empty disk and opened
    by a fresh catalogue. *)
Lemma save_load_round_trip_witness :
  ∃ tbl',
    (Database.get_table Database.init "students" (Table.save students ∅)).2
      = Database.Make (<["students" := tbl']> ∅)
    ∧ tbl' = students.
Proof.
  destruct (save_load_round_trip students ∅ Database.init)
    as (tbl' & Hget & _ & Hsame & _).
  { apply lookup_empty. }
  exists tbl'. split; [exact Hget|].
  apply Hsame, session_consistent, empty_consistent.
Defined.

(** ** Duplicate keys (C3) *)

(** C3. A row that matches the schema and whose stringified primary key
    is already in the index is refused with [DuplicateKeyError]; the rows,
    the index and the disk stay as they were. *)
Theorem insert_duplicate_key (tbl : Table.t) (row_dict : row) (fs : disk) (v : value) :
  Table.validate_schema tbl row_dict = Returns () →
  dict_get row_dict (Table.pk_col tbl) = Some v →
  is_Some (Table.index tbl !! str v) →
  Table.insert tbl row_dict fs = (Raises (DuplicateKeyError (str v)), tbl, fs).
Proof.
  intros Hvalid Hv Hdup. unfold Table.insert. rewrite Hvalid, Hv.
  by case_decide.
Qed.

(** The integer [1] collides with the key ["1"] of Ann's row. *)
Lemma insert_duplicate_key_witness :
  Table.insert students
    [("id", VInt 1); ("name", VStr "Dee"); ("course", VStr "Art")] students_disk
  = (Raises (DuplicateKeyError "1"), students, students_disk).
Proof.
  apply (insert_duplicate_key students
           [("id", VInt 1); ("name", VStr "Dee"); ("course", VStr "Art")]
           students_disk (VInt 1)).
  - reflexivity.
  - reflexivity.
  - exists 0. vm_compute. reflexivity.
Defined.

(** ** delete (C4) *)

(** C4, as stated, fails on a table whose index is not consistent with
    its rows: in [staff_reloaded] the key ["Kim"] is in the index and
    belongs to both rows, and [delete] filters both out. *)
Lemma delete_removes_both_rows :
  Table.rows staff_reloaded = [kim1; kim2]
  ∧ Table.index staff_reloaded !! str (VStr "Kim") = Some 1
  ∧ ∃ tbl' fs',
      Table.delete staff_reloaded (VStr "Kim") staff_disk
        = (Returns "Row deleted.", tbl', fs')
      ∧ Table.rows tbl' = [].
Proof.
  split; [by vm_compute|]. split; [by vm_compute|].
  destruct (Table.delete staff_reloaded (VStr "Kim") staff_disk)
    as [[o tbl'] fs'] eqn:E.
  exists tbl', fs'. vm_compute in E. by injection E as <- <- _.
Qed.

(** C4, amended. On every table, deleting a value whose string is not in
    the index raises [KeyNotFoundError] and changes neither the table nor
    the disk. On a table that satisfies the consistency invariant,
    deleting a value whose string is in the index removes the one row at
    the indexed position, the row with that key, and keeps the rows before
    and after it in their order; the index is rebuilt over the remaining
    rows, the table is consistent again and is the one written to disk. *)
Theorem delete_by_primary_key (tbl : Table.t) (pk_val : value) (fs : disk) :
  (Table.index tbl !! str pk_val = None →
     Table.delete tbl pk_val fs = (Raises (KeyNotFoundError (str pk_val)), tbl, fs))
  ∧ (consistent tbl →
     ∀ i, Table.index tbl !! str pk_val = Some i →
     ∃ before r after tbl',
       Table.rows tbl = before ++ r :: after
       ∧ length before = i
       ∧ str (row_get r (Table.pk_col tbl)) = str pk_val
       ∧ Table.rows tbl' = before ++ after
       ∧ tbl' = Table.rebuild_index (Table.with_rows tbl (before ++ after))
       ∧ consistent tbl'
       ∧ Table.delete tbl pk_val fs = (Returns "Row deleted.", tbl', Table.save tbl' fs)).
Proof.
  split.
  - intros Hnone. unfold Table.delete. rewrite Hnone.
    case_decide as Hin; [by destruct Hin|done].
  - intros Hc i Hi.
    destruct (delete_consistent_rows _ _ _ Hc Hi)
      as (before & r & after & Hrows & Hlen & Hkey & Hwo).
    exists before, r, after,
      (Table.rebuild_index (Table.with_rows tbl (before ++ after))).
    assert (Table.delete tbl pk_val fs =
              (Returns "Row deleted.",
               Table.rebuild_index (Table.with_rows tbl (before ++ after)),
               Table.save (Table.rebuild_index (Table.with_rows tbl (before ++ after))) fs))
      as Hdel.
    { unfold Table.delete. rewrite Hi, Hwo.
      case_decide as Hin; [done|]. destruct Hin. by eexists. }
    do 5 (split; [done|]). split; [|done].
    by eapply delete_consistent.
Qed.

(** Deleting Ann, then deleting her again. *)
Lemma delete_by_primary_key_witness :
  (∃ tbl', Table.rows tbl' = [bob] ∧
     Table.delete students (VInt 1) students_disk
       = (Returns "Row deleted.", tbl', Table.save tbl' students_disk))
  ∧ Table.delete students (VStr "7") students_disk
       = (Raises (KeyNotFoundError "7"), students, students_disk).
Proof.
  split.
  - destruct (delete_by_primary_key students (VInt 1) students_disk) as [_ Hin].
    destruct (Hin (session_consistent _ _ _ (empty_consistent _ _ _)) 0)
      as (before & r & after & tbl' & Hrows & Hlen & _ & Hrows' & _ & _ & Hdel).
    + by vm_compute.
    + exists tbl'. split; [|done].
      destruct before; [|done]. injection Hrows as _ <-. done.
  - by apply (delete_by_primary_key students (VStr "7") students_disk).
Defined.

(** ** The catalogue (C5) *)

(** C5. With no live registration and a persisted file, [get_table]
    registers the table built from the file and returns the value of
    [create_table], the message, where C5 and the callers expect the
    [Table]: here a fresh catalogue over the disk the [students] session
    left. The registered table comes back on the next call only. *)
Theorem get_table_lazy_load_returns_message :
  Database.tables Database.init !! "students" = None
  ∧ students_disk !! data_path "students"
    = Some (Json (Document (Some students_schema) (Some "id") (Some [ann; bob])))
  ∧ Database.get_table Database.init "students" students_disk
    = (Returns (Database.Message "Table 'students' created/loaded."),
       Database.Make {[ "students" := students ]})
  ∧ Database.get_table (Database.Make {[ "students" := students ]}) "students"
      students_disk
    = (Returns (Database.TableObject students),
       Database.Make {[ "students" := students ]})
  ∧ Database.get_table Database.init "students" ∅
    = (Raises (TableNotFoundError "students"), Database.init).
Proof. repeat split; by vm_compute. Qed.

(** ** select on an unknown column (C6) *)

(** C6. A column outside the schema is read as [None] in every row, and
    [str(None)] is ["None"]: [SELECT * FROM students WHERE grade = None],
    and the call that passes no [where_val], return every row where C6
    says none. *)
Theorem select_unknown_column_matches_None :
  ("grade" ∉ dict_keys (Table.schema students))
  ∧ "grade" ≠ "" ∧ "grade" ≠ Table.pk_col students
  ∧ Table.rows students = [ann; bob]
  ∧ Table.select students (Some "grade") (VStr "None") = Returns [ann; bob]
  ∧ Table.select students (Some "grade") VNone = Returns [ann; bob]
  ∧ Table.select students (Some "grade") (VStr "A") = Returns [].
Proof.
  split; [apply (dict_not_in_keys (V:=string)); reflexivity|].
  repeat split; by vm_compute.
Qed.

(** ** Schema validation (C7) *)

(** C7. [validate_schema], and hence [insert], fails with [SchemaError]
    exactly when the row has a column the schema lacks or lacks a column
    the schema has; it raises nothing else. Only the set of column names
    counts: two rows with the same column names are accepted or refused
    together, whatever the order of their columns. A row that is refused
    leaves the rows, the index and the disk as they were. *)
Theorem validate_schema_set_equality (tbl : Table.t) (row_dict : row) (fs : disk) :
  ((∃ f, Table.validate_schema tbl row_dict = Raises (SchemaError f)) ↔
     extra_column tbl row_dict ∨ missing_column tbl row_dict)
  ∧ (Table.validate_schema tbl row_dict = Returns () ↔
     ∀ col, col ∈ dict_keys row_dict ↔ col ∈ dict_keys (Table.schema tbl))
  ∧ ((∃ f, Table.insert tbl row_dict fs = (Raises (SchemaError f), tbl, fs)) ↔
     extra_column tbl row_dict ∨ missing_column tbl row_dict)
  ∧ (∀ f tbl' fs', Table.insert tbl row_dict fs = (Raises (SchemaError f), tbl', fs') →
     tbl' = tbl ∧ fs' = fs)
  ∧ (∀ row_dict' : row,
       (∀ col, col ∈ dict_keys row_dict' ↔ col ∈ dict_keys row_dict) →
       succeeded (Table.validate_schema tbl row_dict') =
       succeeded (Table.validate_schema tbl row_dict)).
Proof.
  assert ((∃ f, Table.validate_schema tbl row_dict = Raises (SchemaError f)) ↔
          extra_column tbl row_dict ∨ missing_column tbl row_dict) as Hvalidate.
  { rewrite mismatch_iff. split.
    - intros [f Hf]. by rewrite Hf.
    - intros Hne. by destruct (validate_schema_cases tbl row_dict). }
  split; [done|]. split; [apply validate_schema_Returns|].
  split; [|split].
  - rewrite <- Hvalidate. unfold Table.insert. split; intros [f Hf]; exists f.
    + destruct (Table.validate_schema tbl row_dict) as [[]|e]; [|congruence].
      destruct (dict_get row_dict (Table.pk_col tbl)); [|done].
      by case_decide.
    + by rewrite Hf.
  - intros f tbl' fs' Hins. by apply insert_Raises in Hins.
  - intros row_dict' Hsame.
    destruct (validate_schema_cases tbl row_dict) as [Hok|[f Hf]],
             (validate_schema_cases tbl row_dict') as [Hok'|[f' Hf']];
      rewrite ?Hok, ?Hok', ?Hf, ?Hf'; try done.
    + exfalso. assert (Table.validate_schema tbl row_dict' = Returns ()); [|congruence].
      apply validate_schema_Returns. intros col. rewrite Hsame.
      by apply validate_schema_Returns.
    + exfalso. assert (Table.validate_schema tbl row_dict = Returns ()); [|congruence].
      apply validate_schema_Returns. intros col. rewrite <- Hsame.
      by apply validate_schema_Returns.
Qed.

(** A row of [students] with its columns in another order is accepted, a
    row without [course] is refused and changes nothing. *)
Lemma validate_schema_set_equality_witness :
  Table.validate_schema students
    [("course", VStr "Art"); ("id", VStr "3"); ("name", VStr "Cy")] = Returns ()
  ∧ ∃ f, Table.insert students [("id", VStr "3"); ("name", VStr "Cy")] students_disk
         = (Raises (SchemaError f), students, students_disk).
Proof.
  destruct (validate_schema_set_equality students
              [("id", VStr "3"); ("name", VStr "Cy")] students_disk)
    as (_ & _ & Hinsert & _).
  split; [reflexivity|].
  apply Hinsert. right. exists "course". split.
  - apply dict_in_keys. reflexivity.
  - apply dict_not_in_keys. reflexivity.
Defined.

(** ** select on the primary key (C8) *)

(** C8, as stated, fails when the primary-key column has the empty name:
    the table [blank] is consistent, and selecting on its primary-key
    column returns both rows, the falsy [where_col] being taken for no
    filter at all. *)
Lemma select_blank_primary_key :
  consistent blank
  ∧ Table.rows blank = [[("", VStr "1")]; [("", VStr "2")]]
  ∧ Table.select blank (Some (Table.pk_col blank)) (VStr "1")
      = Returns [[("", VStr "1")]; [("", VStr "2")]].
Proof.
  split; [|by vm_compute].
  apply session_consistent, empty_consistent.
Qed.

(** C8, amended. On a consistent table whose primary-key column has a
    non-empty name, selecting on that column goes through the index under
    [str where_val]: a hit at position [i] returns the row at [i] alone,
    a miss returns nothing; the result is the one row whose stringified
    key equals [str where_val] when there is such a row and is empty
    otherwise. *)
Theorem select_by_primary_key (tbl : Table.t) (where_val : value) :
  consistent tbl → Table.pk_col tbl ≠ "" →
  ∃ result,
    Table.select tbl (Some (Table.pk_col tbl)) where_val = Returns result
    ∧ (∀ i, Table.index tbl !! str where_val = Some i →
            ∃ r, Table.rows tbl !! i = Some r ∧ result = [r])
    ∧ (Table.index tbl !! str where_val = None → result = [])
    ∧ (∀ r, r ∈ Table.rows tbl →
            str (row_get r (Table.pk_col tbl)) = str where_val → result = [r])
    ∧ ((∀ r, r ∈ Table.rows tbl →
             str (row_get r (Table.pk_col tbl)) ≠ str where_val) → result = []).
Proof.
  intros Hc Hpk.
  exists (filter (λ r, str (row_get r (Table.pk_col tbl)) = str where_val)
                 (Table.rows tbl)).
  pose proof (select_pk_scan tbl where_val Hc Hpk) as Hscan.
  split; [done|].
  unfold Table.select in Hscan.
  destruct (decide (Table.pk_col tbl = "")) as [|_]; [done|].
  destruct (decide (Table.pk_col tbl = Table.pk_col tbl)) as [_|]; [|done].
  repeat split.
  - intros i Hi. rewrite Hi in Hscan.
    destruct (Table.rows tbl !! i) as [r|]; [|done].
    exists r. split; [done|]. by injection Hscan as <-.
  - intros Hnone. rewrite Hnone in Hscan. by injection Hscan as <-.
  - intros r Hr Hkey. apply filter_only; [done|done|].
    destruct Hc as (Hcov & _). by apply filter_unique_key.
  - intros Hnone. by apply filter_keeps_none, Forall_forall.
Qed.

(** Selecting Bob by the integer [2], and a key nobody has. *)
Lemma select_by_primary_key_witness :
  Table.select students (Some "id") (VInt 2) = Returns [bob]
  ∧ Table.select students (Some "id") (VStr "9") = Returns [].
Proof.
  assert (consistent students) as Hc
    by apply session_consistent, empty_consistent.
  split.
  - destruct (select_by_primary_key students (VInt 2) Hc) as (res & Hsel & _ & _ & Hrow & _).
    { done. }
    change (Table.pk_col students) with "id" in Hsel.
    rewrite Hsel. f_equal. apply Hrow; [|reflexivity].
    apply list_elem_of_further, list_elem_of_here.
  - destruct (select_by_primary_key students (VStr "9") Hc) as (res & Hsel & _ & Hmiss & _).
    { done. }
    change (Table.pk_col students) with "id" in Hsel.
    rewrite Hsel. f_equal. apply Hmiss. by vm_compute.
Defined.

(** ** Creating a table (C9) *)

(** C9, as stated, fails: nothing compares the primary-key column with
    the schema. The catalogue creates and registers a table whose primary
    key [id] is not a column of its schema. *)
Lemma create_with_foreign_primary_key :
  ("id" ∉ dict_keys [("name", "str")])
  ∧ Database.create_table Database.init "t" [("name", "str")] "id" ∅
    = (Returns "Table 't' created/loaded.",
       Database.Make {[ "t" := Table.Make "t" [("name", "str")] "id" [] ∅ ]}).
Proof.
  split; [|by vm_compute].
  apply (dict_not_in_keys (V:=string)). reflexivity.
Qed.

(** C9, amended. Creation does not compare the primary-key column with
    the schema. With the primary-key column outside the schema, the name
    not registered yet and no file, or only a file that does not decode,
    stored under the name, the constructor returns the empty table with
    that schema and that primary-key column, and [create_table] registers
    it and returns its message: no [SchemaError]. No insert into that
    table succeeds: a row that matches the schema has no primary key to
    read ([KeyError]), any other row is refused by validation; the table
    and the disk stay as they were. *)
Theorem create_does_not_check_primary_key (name : string) (schema : dict string)
    (pk : string) (fs : disk) (db : Database.t) :
  pk ∉ dict_keys schema →
  Database.tables db !! name = None →
  fs !! data_path name = None ∨ fs !! data_path name = Some Undecodable →
  let tbl := Table.Make name schema pk [] ∅ in
  Table.init name schema pk fs = tbl
  ∧ Database.create_table db name schema pk fs
    = (Returns ("Table '" +:+ name +:+ "' created/loaded."),
       Database.Make (<[name := tbl]> (Database.tables db)))
  ∧ (∀ (row_dict : row) (fs' : disk),
       ∃ e, Table.insert tbl row_dict fs' = (Raises e, tbl, fs')
            ∧ (Table.validate_schema tbl row_dict = Returns () → e = KeyError pk)).
Proof.
  intros Hout Hfree Hfile tbl.
  assert (Table.init name schema pk fs = tbl) as Hinit.
  { unfold Table.init, Table.load, Table.filepath. simpl.
    by destruct Hfile as [-> | ->]. }
  split; [done|]. split.
  - unfold Database.create_table. rewrite Hfree, Hinit.
    case_decide as Hin; [by destruct Hin|done].
  - intros row_dict fs'. by apply (insert_foreign_primary_key tbl row_dict fs').
Qed.

Lemma create_does_not_check_primary_key_witness :
  Database.create_table Database.init "t" [("name", "str")] "id" ∅
  = (Returns "Table 't' created/loaded.",
     Database.Make (<["t" := Table.Make "t" [("name", "str")] "id" [] ∅]> ∅))
  ∧ ∃ e, Table.insert (Table.Make "t" [("name", "str")] "id" [] ∅)
           [("name", VStr "Ann")] ∅
         = (Raises e, Table.Make "t" [("name", "str")] "id" [] ∅, ∅)
         ∧ (Table.validate_schema (Table.Make "t" [("name", "str")] "id" [] ∅)
              [("name", VStr "Ann")] = Returns () → e = KeyError "id").
Proof.
  destruct (create_does_not_check_primary_key "t" [("name", "str")] "id" ∅ Database.init)
    as (_ & Hcreate & Hinsert).
  - apply (dict_not_in_keys (V:=string)). reflexivity.
  - apply lookup_empty.
  - left. apply lookup_empty.
  - split; [exact Hcreate | apply Hinsert].
Defined.

(** ** select without a filter (C10) *)

(** C10. [select] tests the truthiness of [where_col]: called with the
    empty string it returns what the call without arguments returns, all
    the rows in insertion order, whatever [where_val] is. *)
Theorem select_falsy_where_col (tbl : Table.t) (where_col : option string)
    (where_val : value) :
  where_col = None ∨ where_col = Some "" →
  Table.select tbl where_col where_val = Table.select tbl None VNone
  ∧ Table.select tbl where_col where_val = Returns (Table.rows tbl).
Proof. by intros [-> | ->]. Qed.

Lemma select_falsy_where_col_witness :
  Table.select students (Some "") (VStr "2") = Table.select students None VNone
  ∧ Table.select students (Some "") (VStr "2") = Returns (Table.rows students).
Proof. apply (select_falsy_where_col students (Some "") (VStr "2")). by right. Defined.

(** * Further properties of the engine *)

(** ** Restarting *)

(** X1. Restarting loses nothing. Construct a table over any disk, run
    any sequence of inserts and deletes, and construct the table again
    with the same arguments over the disk the session left: the result is
    the table the session ended with, rows and index alike, whether the
    file was absent, undecodable or held untrusted rows at the start and
    whether or not any command succeeded. *)
Theorem reopen_after_session (name : string) (schema : dict string) (pk : string)
    (fs : disk) (cs : list command) :
  Table.init name schema pk (session cs (Table.init name schema pk fs) fs).2
  = (session cs (Table.init name schema pk fs) fs).1.2.
Proof.
  pose proof (init_fields name schema pk fs) as (Hn & Hs & Hp).
  pose proof (session_reopen cs (Table.init name schema pk fs) fs
                (init_index_rebuilt name schema pk fs)) as Hreopen.
  rewrite Hn, Hs, Hp in Hreopen. by apply Hreopen.
Qed.

(** ** select on any table a session can reach *)

(** X2. [select] never raises on a table built by the constructor and
    changed by inserts and deletes, whatever the file held and whatever
    the arguments are: the index never points outside the rows. What it
    returns is a subsequence of the rows, in their order. *)
Theorem select_after_session_returns (name : string) (schema : dict string)
    (pk : string) (fs fs' : disk) (cs : list command)
    (where_col : option string) (where_val : value) :
  ∃ result,
    Table.select (session cs (Table.init name schema pk fs) fs').1.2
                 where_col where_val = Returns result
    ∧ result `sublist_of` Table.rows (session cs (Table.init name schema pk fs) fs').1.2.
Proof.
  destruct (select_index_sound (session cs (Table.init name schema pk fs) fs').1.2
              where_col where_val) as [result Hsel].
  { apply session_index_sound, init_index_sound. }
  exists result. split; [done|]. by eapply select_sublist.
Qed.

(** X3. On every such table with a non-empty primary-key column name, the
    select on the primary key returns nothing when no row has the key
    and otherwise the last row that has it: rows loaded from a file may
    share a key, and the index keeps the last position. *)
Theorem select_pk_after_session (name : string) (schema : dict string)
    (pk : string) (fs fs' : disk) (cs : list command) (where_val : value) :
  pk ≠ "" →
  let tbl := (session cs (Table.init name schema pk fs) fs').1.2 in
  ((∀ r, r ∈ Table.rows tbl → str (row_get r pk) ≠ str where_val) →
     Table.select tbl (Some pk) where_val = Returns [])
  ∧ (∀ before r after,
       Table.rows tbl = before ++ r :: after →
       str (row_get r pk) = str where_val →
       Forall (λ r', str (row_get r' pk) ≠ str where_val) after →
       Table.select tbl (Some pk) where_val = Returns [r]).
Proof.
  intros Hpk tbl.
  pose proof (session_frame cs (Table.init name schema pk fs) fs') as (_ & _ & Hp & _).
  pose proof (init_fields name schema pk fs) as (_ & _ & Hp0).
  assert (Table.pk_col tbl = pk) as Hcol by (unfold tbl; congruence).
  pose proof (select_pk_rebuilt tbl where_val) as Hsel.
  rewrite Hcol in Hsel. apply Hsel; [|done].
  apply session_index_rebuilt, init_index_rebuilt.
Qed.

(** After the second process of the [staff] example two rows have the
    key ["Kim"]; the select returns the later one. *)
Lemma select_pk_after_session_witness :
  Table.select staff_second.1.2 (Some "name") (VStr "Kim") = Returns [kim2].
Proof.
  assert ("name" ≠ "") as Hpk by done.
  destruct (select_pk_after_session "staff" [("name", "str"); ("id", "str")] "name"
              staff_disk staff_disk [Insert lee] (VStr "Kim") Hpk) as [_ Hlast].
  apply (Hlast [kim1] kim2 [lee]).
  - reflexivity.
  - reflexivity.
  - repeat constructor. by vm_compute.
Defined.

(** ** insert, select and delete together *)

(** X4. What was just inserted is found: after a successful insert into
    any table whose primary-key column name is not empty, the select on
    the primary key with any value that stringifies like the row's key
    returns that row alone, and the unfiltered select returns the old
    rows followed by the new one. *)
Theorem insert_then_select (tbl tbl' : Table.t) (row_dict : row) (fs fs' : disk)
    (s : string) (where_val : value) :
  Table.pk_col tbl ≠ "" →
  Table.insert tbl row_dict fs = (Returns s, tbl', fs') →
  str where_val = str (row_get row_dict (Table.pk_col tbl)) →
  Table.select tbl' (Some (Table.pk_col tbl)) where_val = Returns [row_dict]
  ∧ Table.select tbl' None VNone = Returns (Table.rows tbl ++ [row_dict]).
Proof.
  intros Hpk (v & _ & Hv & _ & -> & _)%insert_Returns Hval.
  rewrite (row_get_Some _ _ _ Hv) in Hval.
  split; [|done]. unfold Table.select. simpl.
  destruct (decide (Table.pk_col tbl = "")) as [|_]; [done|].
  destruct (decide (Table.pk_col tbl = Table.pk_col tbl)) as [_|]; [|done].
  by rewrite Hval, lookup_insert_eq, lookup_app_r, Nat.sub_diag.
Qed.

Lemma insert_then_select_witness :
  Table.select students (Some "id") (VInt 2) = Returns [bob]
  ∧ Table.select students None VNone = Returns [ann; bob].
Proof.
  apply (insert_then_select (session [Insert ann] students_empty ∅).1.2 students bob
           (session [Insert ann] students_empty ∅).2 students_disk
           "Inserted 1 row into students." (VInt 2)).
  - done.
  - vm_compute. reflexivity.
  - reflexivity.
Defined.

(** X5. Deleting what was just inserted undoes the insert: on a table
    that satisfies the consistency invariant, a successful insert
    followed by the delete of a value that stringifies like the row's key
    gives back the table as it was before, rows and index, and leaves it
    saved on disk. *)
Theorem insert_then_delete (tbl tbl' : Table.t) (row_dict : row) (fs fs' : disk)
    (s : string) (pk_val : value) :
  consistent tbl →
  Table.insert tbl row_dict fs = (Returns s, tbl', fs') →
  str pk_val = str (row_get row_dict (Table.pk_col tbl)) →
  Table.delete tbl' pk_val fs' = (Returns "Row deleted.", tbl, Table.save tbl fs').
Proof.
  intros Hc Hins Hval.
  pose proof (insert_consistent _ _ _ _ _ _ Hc Hins) as Hc'.
  apply insert_Returns in Hins as (v & _ & Hv & Hfresh & -> & _).
  rewrite (row_get_Some _ _ _ Hv) in Hval.
  assert (Table.rows_without (Table.pk_col tbl) (str pk_val)
            (Table.rows tbl ++ [row_dict]) = Returns (Table.rows tbl)) as Hkept.
  { destruct Hc as [Hcov _]. pose proof (consistent_keyed_apart _ Hcov) as [Hpk _].
    rewrite rows_without_filter.
    - rewrite filter_app, filter_cons_False, filter_nil, app_nil_r.
      + f_equal. apply filter_keeps_all, Forall_lookup. intros i r Hr Heq.
        destruct (Hcov i r Hr) as (w & Hw & Hix).
        rewrite (row_get_Some _ _ _ Hw), Hval in Heq. congruence.
      + rewrite (row_get_Some _ _ _ Hv). intros Hne. by apply Hne.
    - apply Forall_app. split; [done|]. constructor; [by eexists|constructor]. }
  unfold Table.delete. simpl. rewrite Hval, lookup_insert_eq, <- Hval, Hkept.
  case_decide as Hin; [|destruct Hin; by eexists].
  match goal with |- (_, ?t, _) = _ => assert (t = tbl) as -> end; [|done].
  etrans; [|apply (consistent_rebuild_index tbl Hc)]. by destruct tbl.
Qed.

Lemma insert_then_delete_witness :
  Table.delete students (VInt 2) students_disk
  = (Returns "Row deleted.", (session [Insert ann] students_empty ∅).1.2,
     Table.save (session [Insert ann] students_empty ∅).1.2 students_disk).
Proof.
  apply (insert_then_delete (session [Insert ann] students_empty ∅).1.2 students bob
           (session [Insert ann] students_empty ∅).2 students_disk
           "Inserted 1 row into students." (VInt 2)).
  - apply session_consistent, empty_consistent.
  - vm_compute. reflexivity.
  - reflexivity.
Defined.

(** X6. After a successful delete, on any table, consistent or not, the
    key is gone: the rows left are the rows whose key differs, in their
    order, the index has no entry for the key, the select on it finds
    nothing, and a second delete of the same value raises
    [KeyNotFoundError] and changes nothing. *)
Theorem delete_then_gone (tbl tbl' : Table.t) (pk_val : value) (fs fs' : disk)
    (s : string) :
  Table.delete tbl pk_val fs = (Returns s, tbl', fs') →
  Table.rows tbl'
    = filter (λ r, str (row_get r (Table.pk_col tbl)) ≠ str pk_val) (Table.rows tbl)
  ∧ Table.index tbl' !! str pk_val = None
  ∧ (Table.pk_col tbl ≠ "" →
     Table.select tbl' (Some (Table.pk_col tbl)) pk_val = Returns [])
  ∧ Table.delete tbl' pk_val fs' = (Raises (KeyNotFoundError (str pk_val)), tbl', fs').
Proof.
  intros (_ & _ & _ & -> & _)%delete_Returns.
  assert (Table.index_rows (Table.pk_col tbl) 0
            (filter (λ r, str (row_get r (Table.pk_col tbl)) ≠ str pk_val)
               (Table.rows tbl)) ∅ !! str pk_val = None) as Hgone.
  { rewrite index_rows_absent; [apply lookup_empty|].
    intros (r & Hk & [Hne _]%list_elem_of_filter)%list_elem_of_fmap. by apply Hne. }
  split; [done|]. split; [done|]. split.
  - intros Hpk. unfold Table.select. simpl.
    destruct (decide (Table.pk_col tbl = "")) as [|_]; [done|].
    destruct (decide (Table.pk_col tbl = Table.pk_col tbl)) as [_|]; [|done].
    by rewrite Hgone.
  - unfold Table.delete. simpl. rewrite Hgone.
    case_decide as Hin; [by destruct Hin|done].
Qed.

Lemma delete_then_gone_witness :
  Table.index (Table.delete staff_reloaded (VStr "Kim") staff_disk).1.2 !! "Kim" = None
  ∧ Table.rows (Table.delete staff_reloaded (VStr "Kim") staff_disk).1.2 = [].
Proof.
  destruct (delete_then_gone staff_reloaded
              (Table.delete staff_reloaded (VStr "Kim") staff_disk).1.2
              (VStr "Kim") staff_disk
              (Table.delete staff_reloaded (VStr "Kim") staff_disk).2
              "Row deleted.") as (Hrows & Hix & _).
  - vm_compute. reflexivity.
  - split; [exact Hix|]. rewrite Hrows. vm_compute. reflexivity.
Defined.

(** ** What a session leaves alone *)

(** X7. A session on one table never changes the table's name, schema or
    primary-key column, and never creates, changes or removes a file
    other than the table's own. *)
Theorem session_writes_own_file (cs : list command) (tbl : Table.t) (fs : disk)
    (path : string) :
  path ≠ Table.filepath tbl →
  (session cs tbl fs).2 !! path = fs !! path
  ∧ Table.name (session cs tbl fs).1.2 = Table.name tbl
  ∧ Table.schema (session cs tbl fs).1.2 = Table.schema tbl
  ∧ Table.pk_col (session cs tbl fs).1.2 = Table.pk_col tbl.
Proof.
  intros Hpath. destruct (session_frame cs tbl fs) as (Hn & Hs & Hp & Hf).
  split; [by apply Hf|done].
Qed.

Lemma session_writes_own_file_witness :
  (session [Insert ann; Delete (VInt 1)] students_empty staff_disk).2 !! data_path "staff"
  = staff_disk !! data_path "staff".
Proof.
  apply (session_writes_own_file [Insert ann; Delete (VInt 1)] students_empty staff_disk
           (data_path "staff")).
  by vm_compute.
Defined.

(** ** Files that do not decode *)

(** X8. A file that does not decode is treated in two ways. The
    constructor, and so [create_table], starts from an empty table, and
    the first successful insert replaces the file by one that holds that
    row alone. [get_table], which reads the file itself before it
    constructs anything, lets [JSONDecodeError] escape and registers
    nothing. *)
Theorem undecodable_file (name : string) (schema : dict string) (pk : string)
    (fs : disk) (db : Database.t) :
  fs !! data_path name = Some Undecodable →
  Table.init name schema pk fs = Table.Make name schema pk [] ∅
  ∧ (Database.tables db !! name = None →
     Database.get_table db name fs = (Raises JSONDecodeError, db)
     ∧ Database.create_table db name schema pk fs
       = (Returns ("Table '" +:+ name +:+ "' created/loaded."),
          Database.Make (<[name := Table.Make name schema pk [] ∅]> (Database.tables db))))
  ∧ (∀ (row_dict : row) s tbl' fs',
       Table.insert (Table.init name schema pk fs) row_dict fs = (Returns s, tbl', fs') →
       fs' !! data_path name
         = Some (Json (Document (Some schema) (Some pk) (Some [row_dict])))).
Proof.
  intros Hfile.
  assert (Table.init name schema pk fs = Table.Make name schema pk [] ∅) as Hinit.
  { unfold Table.init, Table.load, Table.filepath. simpl. by rewrite Hfile. }
  split; [done|]. split.
  - intros Hfree. split.
    + unfold Database.get_table. by rewrite Hfree, Hfile.
    + unfold Database.create_table. rewrite Hfree, Hinit.
      case_decide as Hin; [by destruct Hin|done].
  - intros row_dict s tbl' fs'. rewrite Hinit.
    intros (v & _ & _ & _ & -> & ->)%insert_Returns.
    unfold Table.save, Table.filepath. simpl. apply lookup_insert_eq.
Qed.

Lemma undecodable_file_witness :
  Database.get_table Database.init "students" {[ data_path "students" := Undecodable ]}
  = (Raises JSONDecodeError, Database.init)
  ∧ Table.init "students" students_schema "id" {[ data_path "students" := Undecodable ]}
    = students_empty.
Proof.
  destruct (undecodable_file "students" students_schema "id"
              {[ data_path "students" := Undecodable ]} Database.init)
    as (Hinit & Hdb & _).
  - apply lookup_singleton_eq.
  - split; [by apply Hdb|]. by rewrite Hinit.
Defined.

(** ** The catalogue *)

(** X9. Once [create_table] has succeeded the name is taken in this
    catalogue: every later [get_table] of the name returns the table
    object that was registered (not the message of the lazy load),
    whatever is on disk by then, every later [create_table] of the name
    raises [TableExistsError] whatever schema it asks for and leaves the
    catalogue as it is, and the tables registered under other names are
    untouched. *)
Theorem create_table_then (db db' : Database.t) (name : string)
    (schema : dict string) (pk : string) (fs : disk) (s : string) :
  Database.create_table db name schema pk fs = (Returns s, db') →
  (∀ fs', Database.get_table db' name fs'
          = (Returns (Database.TableObject (Table.init name schema pk fs)), db'))
  ∧ (∀ schema' pk' fs', Database.create_table db' name schema' pk' fs'
                        = (Raises (TableExistsError name), db'))
  ∧ (∀ other, other ≠ name →
       Database.tables db' !! other = Database.tables db !! other).
Proof.
  unfold Database.create_table. case_decide as Hin; [done|]. intros [= _ <-].
  split; [|split].
  - intros fs'. unfold Database.get_table. simpl. by rewrite lookup_insert_eq.
  - intros schema' pk' fs'. simpl. rewrite lookup_insert_eq.
    case_decide as Hin'; [done|]. destruct Hin'. by eexists.
  - intros other Hne. simpl. by rewrite lookup_insert_ne.
Qed.

Lemma create_table_then_witness :
  Database.get_table
    (Database.create_table Database.init "students" students_schema "id" ∅).2
    "students" students_disk
  = (Returns (Database.TableObject students_empty),
     (Database.create_table Database.init "students" students_schema "id" ∅).2).
Proof.
  destruct (create_table_then Database.init
              (Database.create_table Database.init "students" students_schema "id" ∅).2
              "students" students_schema "id" ∅ "Table 'students' created/loaded.")
    as (Hget & _).
  - vm_compute. reflexivity.
  - apply Hget.
Defined.

(** * The web front end *)

(** X10. Once [employees] is registered, as the module initialisation
    leaves it when the constructor returns, no request makes an exception
    leave its handler: every [get_table] of a handler finds the live
    table, never the lazy load and its message. Through any sequence of
    requests the catalogue differs from the one it started with only in
    the table held under [employees], which keeps its name, its schema and
    its primary-key column. *)
Theorem requests_never_escape (db : Database.t) (tbl : Table.t) (fs : disk)
    (rqs : list App.request) :
  Database.tables db !! "employees" = Some tbl →
  Forall (λ rs, App.is_Unhandled rs = false) (App.serve rqs db fs).1.1
  ∧ ∃ tbl',
      (App.serve rqs db fs).1.2 = mutated db "employees" tbl'
      ∧ Table.name tbl' = Table.name tbl
      ∧ Table.schema tbl' = Table.schema tbl
      ∧ Table.pk_col tbl' = Table.pk_col tbl.
Proof.
  intros Hreg. destruct (serve_live rqs db tbl fs Hreg) as (Hdb & _ & Hall).
  split; [done|]. eexists. split; [exact Hdb|].
  by destruct (session_frame (rqs ≫= App.command_of) tbl fs) as (? & ? & ? & _).
Qed.

(** A process started over an empty disk: a listing, two forms with the
    same id, a delete of an id nobody has, a listing. *)
Lemma requests_never_escape_witness :
  Forall (λ rs, App.is_Unhandled rs = false)
    (App.serve [App.GetIndex; App.PostAdd (Some "1") (Some "Ann") (Some "CEO");
                App.PostAdd (Some "1") None None; App.PostDelete "7"; App.GetIndex]
               (App.startup ∅) ∅).1.1.
Proof.
  apply (requests_never_escape (App.startup ∅)
           (Table.init "employees" App.employees_schema "id" ∅) ∅).
  reflexivity.
Defined.

(** X11. What [POST /add] does is decided by the string of the [id]
    field alone. The row built from the form always matches the schema;
    when the string of the id ([None] for a form without the field) is
    not in the index the row is appended, the table saved and the client
    redirected, and when it is the page reports [DuplicateKeyError] and
    neither the table nor the disk changes. *)
Theorem add_entry_outcome (tbl : Table.t) (fs : disk)
    (id_val name_val role_val : option string) :
  Table.schema tbl = App.employees_schema → Table.pk_col tbl = "id" →
  let new_row := [("id", App.form_value id_val); ("name", App.form_value name_val);
                  ("role", App.form_value role_val)] in
  let key := str (App.form_value id_val) in
  (Table.index tbl !! key = None →
   ∃ tbl',
     App.add_entry id_val name_val role_val (Database.Make {[ "employees" := tbl ]}) fs
       = (App.Redirect, Database.Make {[ "employees" := tbl' ]}, Table.save tbl' fs)
     ∧ Table.rows tbl' = Table.rows tbl ++ [new_row]
     ∧ Table.index tbl' = <[key := length (Table.rows tbl)]> (Table.index tbl))
  ∧ (is_Some (Table.index tbl !! key) →
     App.add_entry id_val name_val role_val (Database.Make {[ "employees" := tbl ]}) fs
       = (App.ErrorPage (Engine (DuplicateKeyError key)),
          Database.Make {[ "employees" := tbl ]}, fs)).
Proof.
  intros Hschema Hpk new_row key.
  assert (Table.validate_schema tbl new_row = Returns ()) as Hvalid.
  { unfold Table.validate_schema. by rewrite Hschema. }
  assert (dict_get new_row (Table.pk_col tbl) = Some (App.form_value id_val)) as Hkey.
  { by rewrite Hpk. }
  unfold App.add_entry, Database.get_table. simpl. rewrite lookup_singleton_eq.
  fold new_row. unfold Table.insert. rewrite Hvalid, Hkey. fold key. split.
  - intros Hfresh. rewrite Hfresh.
    case_decide as Hin; [by destruct Hin|].
    unfold mutated. simpl. rewrite insert_singleton_eq.
    eexists. split; [done|]. simpl. split; [done|].
    rewrite length_app. simpl. do 2 f_equal. lia.
  - intros Hdup. case_decide; [|done].
    unfold mutated. simpl. by rewrite insert_singleton_eq.
Qed.

(** A second form without an [id] field: the first was stored under the
    key ["None"], this one is a duplicate. *)
Lemma add_entry_outcome_witness :
  App.add_entry None (Some "Bob") (Some "CTO")
    (Database.Make {[ "employees" := nameless_session.1.2 ]}) nameless_session.2
  = (App.ErrorPage (Engine (DuplicateKeyError "None")),
     Database.Make {[ "employees" := nameless_session.1.2 ]}, nameless_session.2).
Proof.
  pose proof (add_entry_outcome nameless_session.1.2 nameless_session.2
                None (Some "Bob") (Some "CTO") eq_refl eq_refl) as [_ Hdup].
  apply Hdup. exists 0. vm_compute. reflexivity.
Defined.

(** X12. Restarting the web application loses nothing: after any
    sequence of requests, a new process that loads the module over the
    disk the old one left starts with the catalogue the old one ended
    with, and so renders the same listing. *)
Theorem web_restart (fs : disk) (rqs : list App.request) :
  App.startup (App.serve rqs (App.startup fs) fs).2
  = (App.serve rqs (App.startup fs) fs).1.2
  ∧ (App.index (App.startup (App.serve rqs (App.startup fs) fs).2)
               (App.serve rqs (App.startup fs) fs).2).1.1
    = (App.index (App.serve rqs (App.startup fs) fs).1.2
                 (App.serve rqs (App.startup fs) fs).2).1.1.
Proof.
  assert (App.startup (App.serve rqs (App.startup fs) fs).2
          = (App.serve rqs (App.startup fs) fs).1.2) as Heq; [|by rewrite Heq].
  rewrite !startup_catalogue.
  destruct (serve_registered rqs (Table.init "employees" App.employees_schema "id" fs) fs)
    as (-> & -> & _).
  do 2 f_equal.
  pose proof (init_fields "employees" App.employees_schema "id" fs) as (Hn & Hs & Hp).
  pose proof (session_reopen (rqs ≫= App.command_of)
                (Table.init "employees" App.employees_schema "id" fs) fs
                (init_index_rebuilt _ _ _ _)) as Hreopen.
  rewrite Hn, Hs, Hp in Hreopen. by apply Hreopen.
Qed.

(** * The command interpreter *)
Section interpreter_properties.

(** Python's [str.upper]; the properties hold whatever it does to the
    other tokens. *)
Variable upper : string → string.

(** X13. [CREATE] reads the table name and the primary-key column from
    the third and fourth token and never looks at the second. The schema
    it builds starts with the primary-key column, holds each column once
    however often it is repeated, types every column ["str"], and always
    contains the primary-key column. With the name not registered yet and
    no file stored under it, the empty table over that schema is
    registered, the message of [create_table] is the one line printed and
    the disk is untouched. *)
Theorem repl_create (token0 token1 table_name pk_col : string) (columns : list string)
    (db : Database.t) (fs : disk) :
  upper token0 = "CREATE" →
  Database.tables db !! table_name = None →
  fs !! data_path table_name = None →
  Repl.run_command upper (token0 :: token1 :: table_name :: pk_col :: columns) db fs
    = ([Repl.Line ("Table '" +:+ table_name +:+ "' created/loaded.")],
       Database.Make
         (<[table_name := Table.Make table_name (Repl.create_schema pk_col columns)
                            pk_col [] ∅]> (Database.tables db)),
       fs)
  ∧ pk_col ∈ dict_keys (Repl.create_schema pk_col columns)
  ∧ head (dict_keys (Repl.create_schema pk_col columns)) = Some pk_col
  ∧ NoDup (dict_keys (Repl.create_schema pk_col columns))
  ∧ (∀ col, col ∈ dict_keys (Repl.create_schema pk_col columns)
            ↔ col = pk_col ∨ col ∈ columns)
  ∧ Forall (λ kv, kv.2 = "str") (Repl.create_schema pk_col columns).
Proof.
  intros Hcmd Hfree Hfile.
  destruct (create_schema_keys pk_col columns) as (Hnd & Hin & Hstr & Hhead).
  split; [|split; [by apply Hin; left|done]].
  unfold Repl.run_command. rewrite Hcmd.
  destruct (decide ("CREATE" = "CREATE")) as [_|]; [|done].
  case_decide as Hlen; [simpl in Hlen; lia|]. simpl.
  unfold Database.create_table. rewrite Hfree.
  case_decide as Hreg; [by destruct Hreg|].
  unfold Table.init, Table.load, Table.filepath. simpl. by rewrite Hfile.
Qed.

(** X14. [INSERT] into a registered table whose schema has no repeated
    column takes the values after the table name. When their number
    differs from the number of columns it prints the count error and
    changes nothing. Otherwise the row it builds pairs the columns, in
    schema order, with the values as strings; that row always passes
    validation, so what is printed and what changes is the outcome of
    [Table.insert] on it, which is never a [SchemaError]. *)
Theorem repl_insert (token0 token1 table_name value0 : string) (values : list string)
    (db : Database.t) (fs : disk) (tbl : Table.t) :
  upper token0 = "INSERT" →
  Database.tables db !! table_name = Some tbl →
  NoDup (dict_keys (Table.schema tbl)) →
  let tokens := token0 :: token1 :: table_name :: value0 :: values in
  let new_row := zip (dict_keys (Table.schema tbl)) (VStr <$> value0 :: values) in
  (length (value0 :: values) ≠ length (Table.schema tbl) →
   Repl.run_command upper tokens db fs
   = ([Repl.Line ("Error: Table has " +:+ pretty (length (Table.schema tbl))
                  +:+ " columns but you provided "
                  +:+ pretty (length (value0 :: values)) +:+ " values.")], db, fs))
  ∧ (length (value0 :: values) = length (Table.schema tbl) →
     Table.validate_schema tbl new_row = Returns ()
     ∧ Repl.run_command upper tokens db fs
       = (match (Table.insert tbl new_row fs).1.1 with
          | Returns s => [Repl.Line s]
          | Raises e => [Repl.SystemError (Engine e)]
          end,
          mutated db table_name (Table.insert tbl new_row fs).1.2,
          (Table.insert tbl new_row fs).2)
     ∧ ∀ f, (Table.insert tbl new_row fs).1.1 ≠ Raises (SchemaError f)).
Proof.
  intros Hcmd Hreg Hnd tokens new_row.
  assert (Repl.run_command upper tokens db fs
            = (if decide (length (value0 :: values) ≠ length (Table.schema tbl)) then
                 ([Repl.Line ("Error: Table has " +:+ pretty (length (Table.schema tbl))
                              +:+ " columns but you provided "
                              +:+ pretty (length (value0 :: values)) +:+ " values.")],
                  db, fs)
               else
                 match Table.insert tbl
                         (Repl.row_data (Table.schema tbl) (value0 :: values)) fs with
                 | (Returns s, table', fs') =>
                     ([Repl.Line s], mutated db table_name table', fs')
                 | (Raises e, table', fs') =>
                     ([Repl.SystemError (Engine e)], mutated db table_name table', fs')
                 end)) as Hrun.
  { unfold tokens, Repl.run_command. rewrite Hcmd.
    destruct (decide ("INSERT" = "CREATE")) as [|_]; [done|].
    destruct (decide ("INSERT" = "INSERT")) as [_|]; [|done].
    case_decide as Hlen; [simpl in Hlen; lia|]. simpl.
    unfold Database.get_table. by rewrite Hreg. }
  split.
  - intros Hlen. rewrite Hrun. by case_decide.
  - intros Hlen.
    destruct (row_data_zip (Table.schema tbl) (value0 :: values) Hnd Hlen) as [Hrow _].
    pose proof (row_data_valid tbl (value0 :: values) Hnd Hlen) as Hvalid.
    fold new_row in Hrow. rewrite Hrow in Hvalid.
    split; [done|]. split.
    + rewrite Hrun. case_decide; [done|]. rewrite Hrow.
      by destruct (Table.insert tbl new_row fs) as [[[s|e] tbl'] fs'].
    + intros f Hf. unfold Table.insert in Hf. rewrite Hvalid in Hf.
      destruct (dict_get new_row (Table.pk_col tbl)); [|done].
      by case_decide.
Qed.

(** X15. The first [INSERT] or [DELETE] on a table that is on disk but
    not yet registered in this process does not reach the table:
    [get_table] registers the table loaded from the file and returns a
    string, the command prints a [System Error] for the attribute missing
    on it and the disk is untouched. The table is registered from then
    on, so the same command typed again gets the table object. *)
Theorem repl_first_command_after_restart (token0 token1 table_name token3 : string)
    (rest : list string) (db : Database.t) (fs : disk)
    (meta_schema : dict string) (meta_pk_col : string) (file_rows : option (list row)) :
  upper token0 = "INSERT" ∨ upper token0 = "DELETE" →
  Database.tables db !! table_name = None →
  fs !! data_path table_name
    = Some (Json (Document (Some meta_schema) (Some meta_pk_col) file_rows)) →
  let loaded := Table.init table_name meta_schema meta_pk_col fs in
  let db' := Database.Make (<[table_name := loaded]> (Database.tables db)) in
  Repl.run_command upper (token0 :: token1 :: table_name :: token3 :: rest) db fs
    = ([Repl.SystemError
          (AttributeError (if decide (upper token0 = "INSERT") then "schema"
                           else "delete"))], db', fs)
  ∧ Database.get_table db' table_name fs = (Returns (Database.TableObject loaded), db').
Proof.
  intros Hcmd Hfree Hfile loaded db'.
  pose proof (get_table_lazy db table_name fs _ _ _ Hfree Hfile) as Hlazy.
  split.
  - unfold Repl.run_command. destruct Hcmd as [Hcmd|Hcmd]; rewrite Hcmd.
    + destruct (decide ("INSERT" = "CREATE")) as [|_]; [done|].
      destruct (decide ("INSERT" = "INSERT")) as [_|]; [|done].
      case_decide as Hlen; [simpl in Hlen; lia|]. simpl. by rewrite Hlazy.
    + destruct (decide ("DELETE" = "CREATE")) as [|_]; [done|].
      destruct (decide ("DELETE" = "INSERT")) as [|_]; [done|].
      destruct (decide ("DELETE" = "SELECT")) as [|_]; [done|].
      destruct (decide ("DELETE" = "DELETE")) as [_|]; [|done].
      case_decide as Hlen; [simpl in Hlen; lia|]. simpl. by rewrite Hlazy.
  - apply get_table_live. unfold db'. simpl. apply lookup_insert_eq.
Qed.

(** X16. In [SELECT ... FROM name WHERE col = val] the [=] is optional:
    with it or without it the command prints the result of [select] on
    the column with the value as a string. The table name is the token
    after the first token that uppercases to [FROM], the column the token
    after the first that uppercases to [WHERE]. A [WHERE] with nothing
    after the column, or nothing after the [=], prints a [System Error]
    for the token list indexed past its end. *)
Theorem repl_select_where (token0 token1 token2 table_name token4 col val : string)
    (db : Database.t) (fs : disk) (tbl : Table.t) :
  upper token0 = "SELECT" →
  upper token1 ≠ "FROM" → upper token1 ≠ "WHERE" →
  upper token2 = "FROM" →
  upper table_name ≠ "WHERE" →
  upper token4 = "WHERE" →
  val ≠ "=" →
  Database.tables db !! table_name = Some tbl →
  Repl.run_command upper [token0; token1; token2; table_name; token4; col; "="; val] db fs
    = (Repl.print_select (Database.TableObject tbl) (Some col) (VStr val), db, fs)
  ∧ Repl.run_command upper [token0; token1; token2; table_name; token4; col; val] db fs
    = (Repl.print_select (Database.TableObject tbl) (Some col) (VStr val), db, fs)
  ∧ Repl.run_command upper [token0; token1; token2; table_name; token4; col; "="] db fs
    = ([Repl.SystemError TokenIndexError], db, fs)
  ∧ Repl.run_command upper [token0; token1; token2; table_name; token4; col] db fs
    = ([Repl.SystemError TokenIndexError], db, fs).
Proof.
  intros Hcmd Hfrom1 Hwhere1 Hfrom Hname Hwhere Hval Hreg.
  assert (upper token0 ≠ "FROM") as Hfrom0 by (by rewrite Hcmd).
  assert (upper token0 ≠ "WHERE") as Hwhere0 by (by rewrite Hcmd).
  assert (upper token2 ≠ "WHERE") as Hwhere2 by (by rewrite Hfrom).
  unfold Repl.run_command. rewrite Hcmd.
  destruct (decide ("SELECT" = "CREATE")) as [|_]; [done|].
  destruct (decide ("SELECT" = "INSERT")) as [|_]; [done|].
  destruct (decide ("SELECT" = "SELECT")) as [_|]; [|done].
  simpl.
  rewrite !(decide_False (P := upper token0 = "FROM")) by done.
  rewrite !(decide_False (P := upper token1 = "FROM")) by done.
  rewrite !(decide_True (P := upper token2 = "FROM")) by done.
  simpl. unfold Database.get_table. rewrite Hreg.
  rewrite !(decide_False (P := upper token0 = "WHERE")) by done.
  rewrite !(decide_False (P := upper token1 = "WHERE")) by done.
  rewrite !(decide_False (P := upper token2 = "WHERE")) by done.
  rewrite !(decide_False (P := upper table_name = "WHERE")) by done.
  rewrite !(decide_True (P := upper token4 = "WHERE")) by done.
  simpl. rewrite !(decide_False (P := val = "=")) by done.
  by destruct (decide ("=" = "=")).
Qed.

(** Either a command leaves the disk as it was, or it is an [INSERT] or
    a [DELETE] of at least four tokens on a registered table whose table
    method returned, and the state afterwards is the one that call left. *)
Lemma run_command_disk (tokens : list string) (db : Database.t) (fs : disk) :
  (Repl.run_command upper tokens db fs).2 = fs
  ∨ ∃ token0 token1 table_name value0 values tbl s tbl' fs',
      tokens = token0 :: token1 :: table_name :: value0 :: values
      ∧ Database.tables db !! table_name = Some tbl
      ∧ ((upper token0 = "INSERT"
          ∧ length (value0 :: values) = length (Table.schema tbl)
          ∧ Table.insert tbl (Repl.row_data (Table.schema tbl) (value0 :: values)) fs
            = (Returns s, tbl', fs'))
         ∨ (upper token0 = "DELETE"
            ∧ Table.delete tbl (VStr value0) fs = (Returns s, tbl', fs')))
      ∧ Repl.run_command upper tokens db fs
        = ([Repl.Line s], mutated db table_name tbl', fs').
Proof.
  unfold Repl.run_command. destruct tokens as [|token0 rest]; [by left|].
  destruct (decide (upper token0 = "CREATE")) as [_|_].
  { left. repeat case_match; simplify_eq/=; done. }
  destruct (decide (upper token0 = "INSERT")) as [Hinsert|_].
  { case_decide as Hlen; [by left|].
    destruct rest as [|token1 [|table_name [|value0 values]]]; simpl in Hlen; try lia.
    simpl. unfold Database.get_table.
    destruct (Database.tables db !! table_name) as [tbl|] eqn:Hreg.
    - case_decide as Hcount; [by left|].
      destruct (Table.insert tbl _ fs) as [[[s|e] tbl'] fs'] eqn:Hins; simpl.
      + right. exists token0, token1, table_name, value0, values, tbl, s, tbl', fs'.
        split; [done|]. split; [done|]. split; [|done].
        left. split; [done|]. split; [|done].
        destruct (decide (length (value0 :: values) = length (Table.schema tbl)));
          [done|]. by destruct Hcount.
      + left. eapply insert_Raises. eassumption.
    - left. repeat case_match; simplify_eq/=; done. }
  destruct (decide (upper token0 = "SELECT")) as [_|_].
  { left. repeat case_match; simplify_eq/=; done. }
  destruct (decide (upper token0 = "DELETE")) as [Hdelete|_]; [|by left].
  case_decide as Hlen; [by left|].
  destruct rest as [|token1 [|table_name [|value0 values]]]; simpl in Hlen; try lia.
  simpl. unfold Database.get_table.
  destruct (Database.tables db !! table_name) as [tbl|] eqn:Hreg.
  - destruct (Table.delete tbl _ fs) as [[[s|e] tbl'] fs'] eqn:Hdel; simpl.
    + right. exists token0, token1, table_name, value0, values, tbl, s, tbl', fs'.
      split; [done|]. split; [done|]. split; [|done]. by right.
    + left. eapply delete_Raises. eassumption.
  - left. repeat case_match; simplify_eq/=; done.
Qed.

(** X17. The interpreter writes to disk only when an [INSERT] or a
    [DELETE] succeeds. Whatever the tokens, either the disk after the
    command is the disk before it, or the command has at least four
    tokens, its first token uppercases to [INSERT] or [DELETE], its third
    names a registered table, [Table.insert] on the row built from the
    values (as many as the schema has columns) or [Table.delete] on the
    fourth token returned, and the line printed, the table and the disk
    are the ones that call returned. So a command that prints a
    [System Error], a command of fewer than four tokens (every usage
    error of [INSERT] and [DELETE] among them), an [INSERT] with the
    wrong number of values, and every command whose first token is
    neither [INSERT] nor [DELETE] ([CREATE], [SELECT], unknown commands)
    leave the disk as it was. *)
Theorem repl_disk_frame (tokens : list string) (db : Database.t) (fs : disk) :
  ((Repl.run_command upper tokens db fs).2 = fs
   ∨ ∃ token0 token1 table_name value0 values tbl s tbl' fs',
       tokens = token0 :: token1 :: table_name :: value0 :: values
       ∧ Database.tables db !! table_name = Some tbl
       ∧ ((upper token0 = "INSERT"
           ∧ length (value0 :: values) = length (Table.schema tbl)
           ∧ Table.insert tbl (Repl.row_data (Table.schema tbl) (value0 :: values)) fs
             = (Returns s, tbl', fs'))
          ∨ (upper token0 = "DELETE"
             ∧ Table.delete tbl (VStr value0) fs = (Returns s, tbl', fs')))
       ∧ Repl.run_command upper tokens db fs
         = ([Repl.Line s], mutated db table_name tbl', fs'))
  ∧ (∀ e, Repl.SystemError e ∈ (Repl.run_command upper tokens db fs).1.1 →
          (Repl.run_command upper tokens db fs).2 = fs)
  ∧ (length tokens < 4 → (Repl.run_command upper tokens db fs).2 = fs)
  ∧ (∀ token0 token1 table_name values tbl,
       tokens = token0 :: token1 :: table_name :: values →
       upper token0 = "INSERT" →
       Database.tables db !! table_name = Some tbl →
       length values ≠ length (Table.schema tbl) →
       (Repl.run_command upper tokens db fs).2 = fs)
  ∧ (∀ token0, head tokens = Some token0 →
       upper token0 ≠ "INSERT" → upper token0 ≠ "DELETE" →
       (Repl.run_command upper tokens db fs).2 = fs).
Proof.
  pose proof (run_command_disk tokens db fs) as Hdisk.
  split; [exact Hdisk|].
  split; [|split; [|split]].
  - intros e He. destruct Hdisk as [?|Hwrite]; [done|].
    destruct Hwrite as (t0 & t1 & tn & v0 & vs & tbl & s & tbl' & fs' & _ & _ & _ & Hrun).
    rewrite Hrun in He. simpl in He.
    apply list_elem_of_singleton in He. discriminate He.
  - intros Hlen. destruct Hdisk as [?|Hwrite]; [done|].
    destruct Hwrite as (t0 & t1 & tn & v0 & vs & tbl & s & tbl' & fs' & -> & _).
    simpl in Hlen. lia.
  - intros token0 token1 table_name values tbl Htokens Hinsert Hreg Hcount.
    destruct Hdisk as [?|Hwrite]; [done|].
    destruct Hwrite
      as (t0 & t1 & tn & v0 & vs & tbl0 & s & tbl' & fs' & Heq & Hreg0 & Hcall & _).
    rewrite Htokens in Heq. injection Heq as <- <- <- ->.
    rewrite Hreg in Hreg0. injection Hreg0 as <-.
    destruct Hcall as [(_ & Hlen & _)|[Hdelete _]]; [done|].
    rewrite Hinsert in Hdelete. discriminate Hdelete.
  - intros token0 Hhead Hni Hnd. destruct Hdisk as [?|Hwrite]; [done|].
    destruct Hwrite
      as (t0 & t1 & tn & v0 & vs & tbl & s & tbl' & fs' & -> & _ & Hcall & _).
    simpl in Hhead. injection Hhead as ->.
    by destruct Hcall as [[? _]|[? _]].
Qed.

End interpreter_properties.

(** ** The interpreter at work, with [str.upper] on ASCII text *)

Lemma repl_create_witness :
  Repl.run_command Repl.ascii_upper
    ["create"; "TABLE"; "students"; "id"; "name"; "course"; "name"] Database.init ∅
  = ([Repl.Line "Table 'students' created/loaded."],
     Database.Make {[ "students" := students_empty ]}, ∅).
Proof.
  destruct (repl_create Repl.ascii_upper "create" "TABLE" "students" "id"
              ["name"; "course"; "name"] Database.init ∅ eq_refl eq_refl
              (lookup_empty _))
    as [Hrun _].
  rewrite Hrun. reflexivity.
Defined.

(** [INSERT INTO students 3 Cy Art] in the process that holds the
    [students] table. *)
Lemma repl_insert_witness :
  (Repl.run_command Repl.ascii_upper ["insert"; "INTO"; "students"; "3"; "Cy"; "Art"]
     (Database.Make {[ "students" := students ]}) students_disk).1.1
  = [Repl.Line "Inserted 1 row into students."].
Proof.
  destruct (repl_insert Repl.ascii_upper "insert" "INTO" "students" "3" ["Cy"; "Art"]
              (Database.Make {[ "students" := students ]}) students_disk students)
    as [_ Hrun].
  - reflexivity.
  - apply lookup_singleton_eq.
  - apply (bool_decide_unpack _). vm_compute. exact I.
  - destruct Hrun as (_ & -> & _); [reflexivity|]. vm_compute. reflexivity.
Defined.

(** [delete FROM students 1] typed into a new process over the disk the
    [students] session left. *)
Lemma repl_first_command_after_restart_witness :
  Repl.run_command Repl.ascii_upper ["delete"; "FROM"; "students"; "1"]
    Database.init students_disk
  = ([Repl.SystemError (AttributeError "delete")],
     Database.Make {[ "students" := students ]}, students_disk).
Proof.
  destruct (repl_first_command_after_restart Repl.ascii_upper
              "delete" "FROM" "students" "1" [] Database.init students_disk
              students_schema "id" (Some [ann; bob])) as [Hrun _].
  - by right.
  - apply lookup_empty.
  - vm_compute. reflexivity.
  - rewrite Hrun. vm_compute. reflexivity.
Defined.

(** [select * from students where id 2], without the [=]. *)
Lemma repl_select_where_witness :
  Repl.run_command Repl.ascii_upper
    ["select"; "*"; "from"; "students"; "where"; "id"; "2"]
    (Database.Make {[ "students" := students ]}) students_disk
  = ([Repl.Line "Found 1 rows:"; Repl.RowLine bob],
     Database.Make {[ "students" := students ]}, students_disk).
Proof.
  destruct (repl_select_where Repl.ascii_upper
              "select" "*" "from" "students" "where" "id" "2"
              (Database.Make {[ "students" := students ]}) students_disk students)
    as (_ & Hrun & _); [done..|].
  rewrite Hrun. reflexivity.
Defined.
